(** * txRedis: the RESP decoder, encoder and request queue of [RedisBase]

    A shallow embedding of [txredis/protocol.py].  The protocol object is a
    record holding the instance attributes; every method becomes a function
    from the record to a [result] that carries the exit of the call (normal
    or raised), the record afterwards and the deferreds fired meanwhile, in
    order.  The builtins the methods rely on ([bytes.decode], [int], the
    charset encoder) are parameters of the development. *)

From Stdlib Require Import List ZArith Lia Bool String Ascii.
From Stdlib Require Import Strings.Byte DecimalString.
Import ListNotations.

Set Warnings "-register-all".
Local Open Scope Z_scope.

(** ** Bytes *)

Definition bytes := list byte.

(** [_compat.b]: the latin-1 bytes of a literal. *)
Definition b (x : string) : bytes := list_byte_of_string x.

Definition SYM_STAR : bytes := b "*".
Definition SYM_DOLLAR : bytes := b "$".
Definition SYM_CRLF : bytes := [x0d; x0a].
Definition SYM_EMPTY : bytes := b "".

(** [len(s)] as a Python integer. *)
Definition len {A} (s : list A) : Z := Z.of_nat (List.length s).

(** Python slices [s[:k]] and [s[k:]]; a negative bound counts from the end
    and bounds outside the sequence are clamped. *)
Definition slice_to {A} (s : list A) (k : Z) : list A :=
  if 0 <=? k then firstn (Z.to_nat k) s else firstn (Z.to_nat (len s + k)) s.

Definition slice_from {A} (s : list A) (k : Z) : list A :=
  if 0 <=? k then skipn (Z.to_nat k) s else skipn (Z.to_nat (len s + k)) s.

(** [SYM_CRLF in buf] together with [buf.split(SYM_CRLF, 1)]: [None] when the
    buffer holds no terminator, otherwise the text before the first one and
    everything after it. *)
Fixpoint split_crlf (buf : bytes) : option (bytes * bytes) :=
  match buf with
  | [] => None
  | c :: rest =>
      match rest with
      | d :: rest' =>
          if Byte.eqb c x0d && Byte.eqb d x0a then Some ([], rest')
          else match split_crlf rest with
               | Some (line, after) => Some (c :: line, after)
               | None => None
               end
      | [] => None
      end
  end.

(** ** Text *)

(** [s[:k]] and [s[k:]] on decoded text, for the non-negative bounds the
    error classifier uses. *)
Definition text_to (s : string) (k : nat) : string := substring 0 k s.
Definition text_from (s : string) (k : nat) : string :=
  substring k (String.length s) s.

(** [str(n)] for an integer. *)
Definition str (n : Z) : string := NilZero.string_of_int (Z.to_int n).

(** ** Replies, exceptions and deferreds *)

Inductive exn : Type :=
| ResponseError (msg : string)
| NoScript (msg : string)
| NotBusy (msg : string)
| InvalidResponse (msg : string)
| RuntimeError (msg : string)
| ConnectionDone
| ConnectionLost
| UnicodeDecodeError
| UnicodeEncodeError
| AttributeError
| IndexError.

(** What a reply can be: [None], decoded text, an integer, a list of
    replies, or an exception object handed over as a value. *)
Inductive value : Type :=
| VNone
| VText (s : string)
| VInt (n : Z)
| VList (items : list value)
| VExc (e : exn).

(** A [defer.Deferred] is known by its identity. *)
Definition Deferred := nat.

Inductive firing : Type :=
| callback (v : value)
| errback (reason : exn).

Definition event : Type := (Deferred * firing)%type.

(** ** The protocol object *)

(** One entry of [_multi_bulk_stack]: [[length-remaining, [replies] | None]]. *)
Definition frame : Type := (Z * option (list value))%type.

(** The deque [_multi_bulk_stack] is kept innermost frame first (the head of
    the list is the deque's right end); [_request_queue] is kept oldest
    request first (the head is the deque's left end). *)
Record RedisBase : Type := mkRedisBase {
  _buffer : bytes;
  _bulk_length : option Z;
  _disconnected : bool;
  _multi_bulk_stack : list frame;
  _request_queue : list Deferred
}.

(** [RedisBase.__init__]. *)
Definition init : RedisBase :=
  mkRedisBase (b "") None false [] [].

Definition set_buffer (self : RedisBase) (v : bytes) : RedisBase :=
  mkRedisBase v (_bulk_length self) (_disconnected self)
              (_multi_bulk_stack self) (_request_queue self).

Definition set_bulk_length (self : RedisBase) (v : option Z) : RedisBase :=
  mkRedisBase (_buffer self) v (_disconnected self)
              (_multi_bulk_stack self) (_request_queue self).

Definition set_disconnected (self : RedisBase) (v : bool) : RedisBase :=
  mkRedisBase (_buffer self) (_bulk_length self) v
              (_multi_bulk_stack self) (_request_queue self).

Definition set_stack (self : RedisBase) (v : list frame) : RedisBase :=
  mkRedisBase (_buffer self) (_bulk_length self) (_disconnected self)
              v (_request_queue self).

Definition set_queue (self : RedisBase) (v : list Deferred) : RedisBase :=
  mkRedisBase (_buffer self) (_bulk_length self) (_disconnected self)
              (_multi_bulk_stack self) v.

(** How a call ends.  [Unfinished] belongs to the model only: the receive
    loop is run on an iteration budget, and [dataReceived_finishes] shows the
    budget is never used up. *)
Inductive outcome : Type :=
| Normal
| Raised (e : exn)
| Unfinished.

Record result : Type := mkResult {
  out : outcome;
  final : RedisBase;
  fired : list event
}.

Definition ok (self : RedisBase) : result := mkResult Normal self [].
Definition raise (e : exn) (self : RedisBase) : result :=
  mkResult (Raised e) self [].

(** ** Completion of replies *)

(** The [elif self._request_queue] branch of [responseReceived]: the oldest
    deferred is popped and called back; with nothing queued nothing happens. *)
Definition provide (self : RedisBase) (reply : value) : result :=
  match _request_queue self with
  | d :: waiting => mkResult Normal (set_queue self waiting) [(d, callback reply)]
  | [] => ok self
  end.

(** [handleMultiBulkElement] with the [multiBulkDataReceived] it calls when
    the frame fills, by recursion on the stack the frame is popped from.
    With the last frame popped, [handleCompleteMultiBulkData] hands the list
    to [responseReceived], which finds the stack empty and provides it. *)
Fixpoint handleMultiBulkElement_on (stack : list frame) (self : RedisBase)
         (element : value) : result :=
  match stack with
  | [] => raise IndexError self
  | (_, None) :: _ => raise AttributeError self
  | (remaining, Some replies) :: below =>
      let replies' := replies ++ [element] in
      let remaining' := remaining - 1 in
      if remaining' =? 0 then
        let reply := VList replies' in
        match below with
        | [] => provide (set_stack self []) reply
        | _ :: _ => handleMultiBulkElement_on below (set_stack self below) reply
        end
      else ok (set_stack self ((remaining', Some replies') :: below))
  end.

Definition handleMultiBulkElement (self : RedisBase) (element : value) : result :=
  handleMultiBulkElement_on (_multi_bulk_stack self) self element.

Definition responseReceived (self : RedisBase) (reply : value) : result :=
  match _multi_bulk_stack self with
  | _ :: _ => handleMultiBulkElement self reply
  | [] => provide self reply
  end.

Definition handleCompleteMultiBulkData (self : RedisBase) (reply : value) : result :=
  responseReceived self reply.

(** [multiBulkDataReceived]: the collected replies of the popped frame, or
    [None] for the null frame, go to the frame below or are complete. *)
Definition multiBulkDataReceived (self : RedisBase) : result :=
  match _multi_bulk_stack self with
  | [] => raise IndexError self
  | (_, collected) :: below =>
      let reply := match collected with
                   | Some replies => VList replies
                   | None => VNone
                   end in
      let self := set_stack self below in
      match below with
      | _ :: _ => handleMultiBulkElement self reply
      | [] => handleCompleteMultiBulkData self reply
      end
  end.

Definition bulkDataReceived (self : RedisBase) (data : value) : result :=
  responseReceived (set_bulk_length self None) data.

Definition singleLineReceived (self : RedisBase) (data : string) : result :=
  let reply := if String.eqb data "none" then VNone else VText data in
  responseReceived self reply.

(** [errorReceived]: the reply is classified by its prefix and goes to the
    oldest deferred; with nothing queued it is raised. *)
Definition classify (data : string) : exn :=
  if String.eqb (text_to data 4) "ERR " then ResponseError (text_from data 4)
  else if String.eqb (text_to data 9) "NOSCRIPT " then NoScript (text_from data 9)
  else if String.eqb (text_to data 8) "NOTBUSY " then NotBusy (text_from data 8)
  else ResponseError data.

Definition errorReceived (self : RedisBase) (data : string) : result :=
  let reply := classify data in
  match _request_queue self with
  | d :: waiting => mkResult Normal (set_queue self waiting) [(d, errback reply)]
  | [] => raise reply self
  end.

Definition cannot_convert (data : string) : exn :=
  InvalidResponse ("Cannot convert data '" ++ data ++ "' to integer")%string.

(** ** The decoder *)

Section Decoder.

(** [bytes.decode(self.charset, self.errors)]; [None] when it raises. *)
Variable decode : bytes -> option string.

(** The builtin [int] on text; [None] when it raises [ValueError]. *)
Variable to_int : string -> option Z.

Definition integerReceived (self : RedisBase) (data : string) : result :=
  let reply := match to_int data with
               | Some n => VInt n
               | None => VExc (cannot_convert data)
               end in
  match _multi_bulk_stack self with
  | _ :: _ => handleMultiBulkElement self reply
  | [] => responseReceived self reply
  end.

(** What one pass through the body of the [while] loop ends with. *)
Inductive control : Type :=
| Continue
| Return.

(** The branch of the loop body on the reply type of a line; [self] already
    has the line removed from its buffer. *)
Definition dispatch (self : RedisBase) (reply_type : byte) (reply_data : string)
  : control * result :=
  if Byte.eqb reply_type "-"%byte then
    (Continue, errorReceived self reply_data)
  else if Byte.eqb reply_type ":"%byte then
    (Continue, integerReceived self reply_data)
  else if Byte.eqb reply_type "+"%byte then
    (Continue, singleLineReceived self reply_data)
  else if Byte.eqb reply_type "$"%byte then
    match to_int reply_data with
    | None =>
        (Return, responseReceived self (VExc (cannot_convert reply_data)))
    | Some n =>
        let self := set_bulk_length self (Some n) in
        if n =? -1 then (Continue, bulkDataReceived self VNone)
        else (Continue, ok self)
    end
  else if Byte.eqb reply_type "*"%byte then
    match to_int reply_data with
    | None =>
        (Return, responseReceived self (VExc (cannot_convert reply_data)))
    | Some multi_bulk_length =>
        if multi_bulk_length =? -1 then
          let self := set_stack self ((-1, None) :: _multi_bulk_stack self) in
          (Return, multiBulkDataReceived self)
        else
          let self :=
            set_stack self ((multi_bulk_length, Some []) :: _multi_bulk_stack self) in
          if multi_bulk_length =? 0 then (Continue, multiBulkDataReceived self)
          else (Continue, ok self)
    end
  else (Continue, ok self).

(** The body of [while self._buffer:], entered with a non-empty buffer. *)
Definition body (self : RedisBase) : control * result :=
  match _bulk_length self with
  | Some bulk_length =>
      if len (_buffer self) <? bulk_length + 2 then (Return, ok self)
      else
        match decode (slice_to (_buffer self) bulk_length) with
        | None => (Return, raise UnicodeDecodeError self)
        | Some data =>
            let self := set_buffer self (slice_from (_buffer self) (bulk_length + 2)) in
            (Continue, bulkDataReceived self (VText data))
        end
  | None =>
      match split_crlf (_buffer self) with
      | None => (Return, ok self)
      | Some (line, rest) =>
          let self := set_buffer self rest in
          match line with
          | [] => (Continue, ok self)
          | reply_type :: tail =>
              match decode tail with
              | None => (Return, raise UnicodeDecodeError self)
              | Some reply_data => dispatch self reply_type reply_data
              end
          end
      end
  end.

(** The [while] loop on a budget of iterations. *)
Fixpoint loop (budget : nat) (self : RedisBase) : result :=
  match _buffer self with
  | [] => ok self
  | _ :: _ =>
      match budget with
      | O => mkResult Unfinished self []
      | S budget' =>
          let '(ctl, r) := body self in
          match out r, ctl with
          | Normal, Continue =>
              let r' := loop budget' (final r) in
              mkResult (out r') (final r') (fired r ++ fired r')
          | _, _ => r
          end
      end
  end.

(** Each pass either takes a terminated line off the buffer or, after a
    length line, takes the bulk data; twice the buffer plus two passes are
    more than any call makes. *)
Definition budget_for (self : RedisBase) : nat :=
  2 * List.length (_buffer self) + 2.

(** [dataReceived]; [resetTimeout] only restarts the inactivity timer. *)
Definition dataReceived (self : RedisBase) (data : bytes) : result :=
  let self := set_buffer self (_buffer self ++ data) in
  loop (budget_for self) self.

End Decoder.

(** ** Instances of the builtins *)

(** [bytes.decode('ascii', 'strict')]: a byte above 127 raises. *)
Definition ascii_decode (s : bytes) : option string :=
  if forallb (fun c => (Byte.to_N c <? 128)%N) s
  then Some (string_of_list_byte s) else None.

Definition digit_of (c : ascii) : option Z :=
  let n := Z.of_N (N_of_ascii c) in
  if (48 <=? n) && (n <=? 57) then Some (n - 48) else None.

Fixpoint digits_value (acc : Z) (s : string) : option Z :=
  match s with
  | EmptyString => Some acc
  | String c s' =>
      match digit_of c with
      | Some d => digits_value (10 * acc + d) s'
      | None => None
      end
  end.

(** [int(text)] on signed ASCII decimals: an optional sign and at least one
    digit.  The builtin reads these texts the same way; it also accepts
    surrounding blanks and digit grouping, which this instance refuses. *)
Definition decimal_int (s : string) : option Z :=
  match s with
  | EmptyString => None
  | String c s' =>
      if Ascii.eqb c "-" then
        match s' with
        | EmptyString => None
        | _ => option_map Z.opp (digits_value 0 s')
        end
      else if Ascii.eqb c "+" then
        match s' with
        | EmptyString => None
        | _ => digits_value 0 s'
        end
      else digits_value 0 s
  end.

(** ** The encoder *)

(** The kinds of value [encode] tells apart: a [Token], a byte string, an
    integer, a float (carried by its [repr]), text, and any other object
    (carried by its [unicode()] form). *)
Inductive arg : Type :=
| Token (value : string)
| Binary (value : bytes)
| Integer (value : Z)
| Float (repr : string)
| Unicode (value : string)
| Object (unicode : string).

(** [' ' in command] and [command.split(' ')]. *)
Fixpoint has_space (s : string) : bool :=
  match s with
  | EmptyString => false
  | String c s' => Ascii.eqb c " " || has_space s'
  end.

Fixpoint split_space (s : string) : list string :=
  match s with
  | EmptyString => [EmptyString]
  | String c s' =>
      if Ascii.eqb c " " then EmptyString :: split_space s'
      else match split_space s' with
           | w :: ws => String c w :: ws
           | [] => [String c EmptyString]
           end
  end.

Section Encoder.

(** [unicode.encode(self.charset, self.errors)]; [None] when it raises. *)
Variable encode_text : string -> option bytes.

Definition encode (value : arg) : option bytes :=
  match value with
  | Token v => Some (b v)
  | Binary v => Some v
  | Integer n => Some (b (str n))
  | Float r => Some (b r)
  | Unicode v => encode_text v
  | Object u => encode_text u
  end.

(** The [for] loop of [_pack] over the arguments still to encode. *)
Fixpoint pack_loop (args : list arg) (buff : bytes) (output : list bytes)
  : option (list bytes) :=
  match args with
  | [] => Some (output ++ [buff])
  | a :: args' =>
      match encode a with
      | None => None
      | Some arg =>
          if (6000 <? len buff) || (6000 <? len arg) then
            let buff := buff ++ SYM_DOLLAR ++ b (str (len arg)) ++ SYM_CRLF in
            pack_loop args' SYM_CRLF (output ++ [buff; arg])
          else
            pack_loop args'
              (buff ++ SYM_DOLLAR ++ b (str (len arg)) ++ SYM_CRLF ++ arg ++ SYM_CRLF)
              output
      end
  end.

(** The argument tuple [_pack] rebuilds from the command name. *)
Definition pack_args (command : string) (args : list arg) : list arg :=
  if has_space command then map Token (split_space command) ++ args
  else Token command :: args.

(** [_pack(command, *args)]; [None] when an argument fails to encode. *)
Definition _pack (command : string) (args : list arg) : option (list bytes) :=
  let args := pack_args command args in
  let buff := SYM_STAR ++ b (str (len args)) ++ SYM_CRLF in
  pack_loop args buff [].

(** ** Requests *)

(** What [getResponse] returns: a deferred now waiting in the queue, or
    [defer.fail(...)]. *)
Inductive future : Type :=
| Waiting (d : Deferred)
| Failed (e : exn).

(** [getResponse]; [d] is the object [defer.Deferred()] creates. *)
Definition getResponse (self : RedisBase) (d : Deferred) : future * RedisBase :=
  if _disconnected self then (Failed (RuntimeError "Not connected"), self)
  else (Waiting d, set_queue self (_request_queue self ++ [d])).

(** A call of [send]: what it returns ([None] when [_pack] raised), the
    protocol afterwards and the parts written to the transport. *)
Record sent : Type := mkSent {
  returned : option future;
  after_send : RedisBase;
  written : list bytes
}.

Definition send (self : RedisBase) (d : Deferred) (command : string)
           (args : list arg) : sent :=
  match _pack command args with
  | None => mkSent None self []
  | Some parts =>
      let '(f, self') := getResponse self d in
      mkSent (Some f) self' parts
  end.

End Encoder.

(** ** Losing the connection *)

(** The loop of [failRequests] over the queue it empties. *)
Fixpoint failRequests_on (queue : list Deferred) (self : RedisBase) (reason : exn)
  : result :=
  match queue with
  | [] => ok self
  | d :: waiting =>
      let r := failRequests_on waiting (set_queue self waiting) reason in
      mkResult (out r) (final r) ((d, errback reason) :: fired r)
  end.

Definition failRequests (self : RedisBase) (reason : exn) : result :=
  failRequests_on (_request_queue self) self reason.

Definition connectionLost (self : RedisBase) (reason : exn) : result :=
  failRequests (set_disconnected self true) reason.

(** [encode] with charset ['ascii'] and errors ['strict']. *)
Definition ascii_encode (s : string) : option bytes :=
  if forallb (fun c => (Byte.to_N c <? 128)%N) (b s) then Some (b s) else None.

(** * What the theorems are stated with *)

(** A method that only completes replies keeps the buffer, the awaited bulk
    length and the connection flag, ends on its own, and takes the deferreds
    it fires off the front of the queue, oldest first. *)
Record completes (self : RedisBase) (r : result) : Prop := {
  keeps_buffer : _buffer (final r) = _buffer self;
  keeps_bulk_length : _bulk_length (final r) = _bulk_length self;
  keeps_disconnected : _disconnected (final r) = _disconnected self;
  pops_oldest : _request_queue self = map fst (fired r) ++ _request_queue (final r);
  ends : out r <> Unfinished
}.

(** Every call keeps the connection flag, ends, and fires deferreds only off
    the front of the queue. *)
Record orderly (self : RedisBase) (r : result) : Prop := {
  same_disconnected : _disconnected (final r) = _disconnected self;
  oldest_first : _request_queue self = map fst (fired r) ++ _request_queue (final r);
  finished : out r <> Unfinished
}.

(** What is left to do: two for every buffered byte, one more while bulk
    data is awaited. *)
Definition pending (self : RedisBase) : nat :=
  2 * List.length (_buffer self) +
  match _bulk_length self with Some _ => 1 | None => 0 end.

(** ** The specification's words *)

(** The completion path in the words of the specification: with no frame
    open the element is a completed top-level reply; with a frame open it
    becomes the next element of the innermost frame, and a frame that fills
    is itself completed into the frame above it. *)
Inductive routed : list frame -> value -> list frame -> option value -> Prop :=
| routed_top element :
    routed [] element [] (Some element)
| routed_next remaining replies below element :
    remaining - 1 <> 0 ->
    routed ((remaining, Some replies) :: below) element
           ((remaining - 1, Some (replies ++ [element])) :: below) None
| routed_filled remaining replies below element stack' top :
    remaining - 1 = 0 ->
    routed below (VList (replies ++ [element])) stack' top ->
    routed ((remaining, Some replies) :: below) element stack' top.

(** Every frame on the stack is collecting replies (the null frame is popped
    by the pass that pushes it). *)
Definition collecting (stack : list frame) : Prop :=
  Forall (fun f : frame => snd f <> None) stack.

(** The single-buffer encoding of a request: [*<argcount>\r\n] and then
    [$<byteLength>\r\n<bytes>\r\n] for each argument. *)
Definition bulk_of (arg : bytes) : bytes :=
  SYM_DOLLAR ++ b (str (len arg)) ++ SYM_CRLF ++ arg ++ SYM_CRLF.

Definition canonical_encoding (args : list bytes) : bytes :=
  SYM_STAR ++ b (str (len args)) ++ SYM_CRLF ++ flat_map bulk_of args.

(** ** Sequences of calls *)

Section Calls.

Variable decode : bytes -> option string.
Variable to_int : string -> option Z.
Variable encode_text : string -> option bytes.

(** All arguments encoded, left to right; [None] when one raises. *)
Fixpoint encode_all (args : list arg) : option (list bytes) :=
  match args with
  | [] => Some []
  | a :: args' =>
      match encode encode_text a, encode_all args' with
      | Some x, Some xs => Some (x :: xs)
      | _, _ => None
      end
  end.

(** One [send] call: the deferred it would create, the command name and
    the arguments. *)
Definition request : Type := (Deferred * string * list arg)%type.

Definition packable (rq : request) : Prop :=
  let '(_, command, args) := rq in _pack encode_text command args <> None.

(** [send] called for each request in turn, with what every call returned. *)
Fixpoint sends (self : RedisBase) (requests : list request)
  : RedisBase * list (option future) :=
  match requests with
  | [] => (self, [])
  | (d, command, args) :: more =>
      let s := send encode_text self d command args in
      let '(self', answers) := sends (after_send s) more in
      (self', returned s :: answers)
  end.

(** The deferreds the calls left waiting, in call order. *)
Fixpoint slots (answers : list (option future)) : list Deferred :=
  match answers with
  | [] => []
  | Some (Waiting d) :: more => d :: slots more
  | _ :: more => slots more
  end.

(** [dataReceived] called for each chunk in turn until a call raises. *)
Fixpoint receive (self : RedisBase) (chunks : list bytes) : result :=
  match chunks with
  | [] => ok self
  | data :: more =>
      let r := dataReceived decode to_int self data in
      match out r with
      | Normal =>
          let r' := receive (final r) more in
          mkResult (out r') (final r') (fired r ++ fired r')
      | _ => r
      end
  end.

(** [passes self evs self']: from [self] the loop makes some passes that
    return normally and go round again, firing [evs], and stands at
    [self']. *)
Inductive passes : RedisBase -> list event -> RedisBase -> Prop :=
| passes_none self : passes self [] self
| passes_next self r evs self' :
    _buffer self <> [] ->
    body decode to_int self = (Continue, r) ->
    out r = Normal ->
    passes (final r) evs self' ->
    passes self (fired r ++ evs) self'.

End Calls.

(** A connected protocol with an empty buffer and the given requests
    waiting. *)
Definition awaiting (queue : list Deferred) : RedisBase :=
  mkRedisBase [] None false [] queue.

Definition feed := dataReceived ascii_decode decimal_int.

(** * Further definitions *)

(** A result with more events in front of its own. *)
Definition prepend (evs : list event) (r : result) : result :=
  mkResult (out r) (final r) (evs ++ fired r).

(** The protocol with [data] added to its buffer, as [dataReceived] leaves it
    before the loop, and a result whose protocol gets another buffer. *)
Definition more (self : RedisBase) (data : bytes) : RedisBase :=
  set_buffer self (_buffer self ++ data).

Definition with_buffer (buffer : bytes) (r : result) : result :=
  mkResult (out r) (set_buffer (final r) buffer) (fired r).

(** ** Replies on the wire *)

(** The replies the decoder is written for (http://redis.io/topics/protocol):
    the null bulk, an integer line, a status line, bulk data and an array of
    replies. *)
Inductive reply : Type :=
| RNull
| RInteger (n : Z)
| RStatus (text : bytes)
| RBulk (data : bytes)
| RArray (items : list reply).

(** The bytes of a reply as the server sends it. *)
Fixpoint wire (r : reply) : bytes :=
  match r with
  | RNull => SYM_DOLLAR ++ b (str (-1)) ++ SYM_CRLF
  | RInteger n => b ":" ++ b (str n) ++ SYM_CRLF
  | RStatus text => b "+" ++ text ++ SYM_CRLF
  | RBulk data => bulk_of data
  | RArray items => SYM_STAR ++ b (str (len items)) ++ SYM_CRLF ++ flat_map wire items
  end.

(** The integers written out in a reply: integer replies, bulk lengths and
    element counts; and the texts of its status lines. *)
Fixpoint numbers (r : reply) : list Z :=
  match r with
  | RNull => [-1]
  | RInteger n => [n]
  | RStatus _ => []
  | RBulk data => [len data]
  | RArray items => len items :: flat_map numbers items
  end.

Fixpoint status_lines (r : reply) : list bytes :=
  match r with
  | RStatus text => [text]
  | RArray items => flat_map status_lines items
  | _ => []
  end.

(** All of a list of optional results, when none is missing. *)
Fixpoint all_of {A} (l : list (option A)) : option (list A) :=
  match l with
  | [] => Some []
  | Some x :: l' => option_map (cons x) (all_of l')
  | None :: _ => None
  end.

Section Replies.

Variable decode : bytes -> option string.
Variable to_int : string -> option Z.

(** The value a reply stands for; [None] when some text in it fails to
    decode. *)
Fixpoint value_of (r : reply) : option value :=
  match r with
  | RNull => Some VNone
  | RInteger n => Some (VInt n)
  | RStatus text =>
      option_map (fun data => if String.eqb data "none" then VNone else VText data)
                 (decode text)
  | RBulk data => option_map VText (decode data)
  | RArray items => option_map VList (all_of (map value_of items))
  end.

(** The builtins read back the decimal text of [n]. *)
Definition reads_int (n : Z) : Prop :=
  decode (b (str n)) = Some (str n) /\ to_int (str n) = Some n.

(** A reply the decoder can take in: its numbers are read back and its
    status lines hold no terminator. *)
Definition well_formed (r : reply) : Prop :=
  Forall reads_int (numbers r) /\
  Forall (fun text => split_crlf text = None) (status_lines r).

(** No bulk data of a negative length is awaited. *)
Definition steady (self : RedisBase) : Prop :=
  match _bulk_length self with
  | Some n => 0 <= n
  | None => True
  end.

(** [passes] through steady protocols only. *)
Inductive steady_passes : RedisBase -> list event -> RedisBase -> Prop :=
| steady_none self : steady_passes self [] self
| steady_next self r evs self' :
    steady self ->
    _buffer self <> [] ->
    body decode to_int self = (Continue, r) ->
    out r = Normal ->
    steady_passes (final r) evs self' ->
    steady_passes self (fired r ++ evs) self'.

(** The loop stands still: the buffer is used up, or the pass returns to
    wait for more data with nothing done. *)
Definition stands (self : RedisBase) : Prop :=
  _buffer self = [] \/ body decode to_int self = (Return, ok self).

(** What the decoding of a reply comes to: the completion of its value on
    the protocol with the reply taken off the buffer. *)
Definition taken (self : RedisBase) (rest : bytes) (v : value) : result :=
  responseReceived (set_buffer self rest) v.

Definition takes (r : reply) : Prop :=
  forall self rest v,
    _buffer self = wire r ++ rest ->
    _bulk_length self = None ->
    collecting (_multi_bulk_stack self) ->
    value_of r = Some v ->
    well_formed r ->
    steady_passes self
                  (fired (taken self rest v)) (final (taken self rest v)).

(** The three passes that raise: awaited bulk data that is buffered and does
    not decode, a line whose text does not decode, and an error line that
    finds no request queued.  The second argument is what the pass ends
    with. *)
Inductive raising : RedisBase -> result -> Prop :=
| raising_bulk self n :
    _bulk_length self = Some n ->
    n + 2 <= len (_buffer self) ->
    decode (slice_to (_buffer self) n) = None ->
    raising self (raise UnicodeDecodeError self)
| raising_line self reply_type text rest :
    _bulk_length self = None ->
    split_crlf (_buffer self) = Some (reply_type :: text, rest) ->
    decode text = None ->
    raising self (raise UnicodeDecodeError (set_buffer self rest))
| raising_error self text rest reply_data :
    _bulk_length self = None ->
    split_crlf (_buffer self) = Some ("-"%byte :: text, rest) ->
    decode text = Some reply_data ->
    _request_queue self = [] ->
    raising self (raise (classify reply_data) (set_buffer self rest)).

End Replies.

(** A call that keeps the stack collecting and ends as the decoder is meant
    to end: normally, on a decoding failure, or on a server error. *)
Definition expected (self : RedisBase) (r : result) : Prop :=
  collecting (_multi_bulk_stack self) ->
  collecting (_multi_bulk_stack (final r)) /\
  (out r = Normal \/
   out r = Raised UnicodeDecodeError \/
   exists text, out r = Raised (classify text)).

(** ** The hiredis variant *)

Section HiRedis.

(** [isinstance(res, exceptions.ResponseError)] on an exception object. *)
Variable is_response_error : exn -> bool.

(** What is done with one result of [self._reader.gets()]. *)
Definition hiredis_firing (res : value) : firing :=
  match res with
  | VExc e => if is_response_error e then errback e else callback res
  | VText data => if String.eqb data "none" then callback VNone else callback res
  | _ => callback res
  end.

(** [HiRedisBase.dataReceived]; [replies] are the results [gets()] hands
    out, after the data was fed to the reader, before it returns [False].
    [popleft] on the empty queue raises [IndexError]. *)
Fixpoint HiRedisBase_dataReceived (self : RedisBase) (replies : list value)
  : result :=
  match replies with
  | [] => ok self
  | res :: later =>
      match _request_queue self with
      | [] => raise IndexError self
      | d :: waiting =>
          prepend [(d, hiredis_firing res)]
                  (HiRedisBase_dataReceived (set_queue self waiting) later)
      end
  end.

End HiRedis.

(** * Properties *)

(** ** What the completion methods leave alone *)

Lemma completes_ok self : completes self (ok self).
Proof. split; simpl; auto; discriminate. Qed.

Lemma completes_raise e self : completes self (raise e self).
Proof. split; simpl; auto; discriminate. Qed.

Lemma completes_set_stack self stack r :
  completes (set_stack self stack) r -> completes self r.
Proof. intros [H1 H2 H3 H4 H5]; split; auto. Qed.

Lemma completes_provide self reply : completes self (provide self reply).
Proof.
  unfold provide. destruct (_request_queue self) as [|d waiting] eqn:Q.
  - apply completes_ok.
  - split; simpl; auto; discriminate.
Qed.

Lemma completes_handleMultiBulkElement_on stack :
  forall self element, completes self (handleMultiBulkElement_on stack self element).
Proof.
  induction stack as [|[remaining [replies|]] below IH]; intros self element; simpl.
  - apply completes_raise.
  - destruct (remaining - 1 =? 0).
    + destruct below as [|f below'].
      * apply completes_set_stack with (stack := []). apply completes_provide.
      * apply completes_set_stack with (stack := f :: below'). apply IH.
    + apply completes_set_stack with (stack := (remaining - 1, Some (replies ++ [element])) :: below).
      apply completes_ok.
  - apply completes_raise.
Qed.

Lemma completes_handleMultiBulkElement self element :
  completes self (handleMultiBulkElement self element).
Proof. apply completes_handleMultiBulkElement_on. Qed.

Lemma completes_responseReceived self reply :
  completes self (responseReceived self reply).
Proof.
  unfold responseReceived. destruct (_multi_bulk_stack self).
  - apply completes_provide.
  - apply completes_handleMultiBulkElement.
Qed.

Lemma completes_multiBulkDataReceived self :
  completes self (multiBulkDataReceived self).
Proof.
  unfold multiBulkDataReceived, handleCompleteMultiBulkData.
  destruct (_multi_bulk_stack self) as [|[n collected] below].
  - apply completes_raise.
  - apply completes_set_stack with (stack := below).
    destruct below.
    + apply completes_responseReceived.
    + apply completes_handleMultiBulkElement.
Qed.

Lemma completes_errorReceived self data : completes self (errorReceived self data).
Proof.
  unfold errorReceived. destruct (_request_queue self) eqn:Q.
  - apply completes_raise.
  - split; simpl; auto; discriminate.
Qed.

Lemma completes_singleLineReceived self data :
  completes self (singleLineReceived self data).
Proof. apply completes_responseReceived. Qed.

Lemma completes_integerReceived to_int self data :
  completes self (integerReceived to_int self data).
Proof.
  unfold integerReceived. destruct (_multi_bulk_stack self).
  - apply completes_responseReceived.
  - apply completes_handleMultiBulkElement.
Qed.

(** ** One pass of the receive loop *)

Lemma completes_orderly self self' r :
  completes self' r ->
  _disconnected self' = _disconnected self ->
  _request_queue self' = _request_queue self ->
  _buffer self' = _buffer self ->
  orderly self r /\ _buffer (final r) = _buffer self.
Proof.
  intros [H1 H2 H3 H4 H5] D Q B. split; [split|]; congruence.
Qed.

Section DecoderFacts.

Variable decode : bytes -> option string.
Variable to_int : string -> option Z.

Lemma dispatch_orderly self reply_type reply_data :
  let '(_, r) := dispatch to_int self reply_type reply_data in
  orderly self r /\ _buffer (final r) = _buffer self.
Proof.
  unfold dispatch, bulkDataReceived.
  repeat match goal with
         | |- context [if ?c then _ else _] => destruct c
         | |- context [match to_int ?d with _ => _ end] => destruct (to_int d)
         end;
    cbv beta iota zeta;
    (eapply completes_orderly;
     [ first [ apply completes_errorReceived
             | apply completes_integerReceived
             | apply completes_singleLineReceived
             | apply completes_responseReceived
             | apply completes_multiBulkDataReceived
             | apply completes_ok ]
     | reflexivity .. ]).
Qed.

Lemma split_crlf_length buf line rest :
  split_crlf buf = Some (line, rest) ->
  List.length buf = (List.length line + 2 + List.length rest)%nat.
Proof.
  revert line rest. induction buf as [|c buf IH]; intros line rest; simpl.
  - discriminate.
  - destruct buf as [|d buf']; [discriminate|].
    destruct (Byte.eqb c x0d && Byte.eqb d x0a).
    + intros H. inversion H; subst. simpl. lia.
    + destruct (split_crlf (d :: buf')) as [[l a]|] eqn:E; [|discriminate].
      intros H. inversion H; subst.
      specialize (IH _ _ eq_refl). simpl in *. lia.
Qed.

Lemma body_orderly self :
  let '(_, r) := body decode to_int self in orderly self r.
Proof.
  assert (from : forall self' r, completes self' r ->
                 _disconnected self' = _disconnected self ->
                 _request_queue self' = _request_queue self -> orderly self r).
  { intros self' r [H1 H2 H3 H4 H5] D Q. split; congruence. }
  unfold body.
  destruct (_bulk_length self) as [bulk_length|].
  - destruct (len (_buffer self) <? bulk_length + 2).
    + eapply from; [apply completes_ok|reflexivity|reflexivity].
    + destruct (decode _).
      * eapply from; [apply completes_responseReceived|reflexivity|reflexivity].
      * eapply from; [apply completes_raise|reflexivity|reflexivity].
  - destruct (split_crlf (_buffer self)) as [[line rest]|].
    + destruct line as [|reply_type tail].
      * eapply from; [apply completes_ok|reflexivity|reflexivity].
      * destruct (decode tail) as [reply_data|].
        -- pose proof (dispatch_orderly (set_buffer self rest) reply_type reply_data) as H.
           destruct (dispatch _ _ _ _) as [ctl r]. destruct H as [[H1 H2 H3] _].
           split; auto.
        -- eapply from; [apply completes_raise|reflexivity|reflexivity].
    + eapply from; [apply completes_ok|reflexivity|reflexivity].
Qed.

Lemma slice_from_length {A} (s : list A) k :
  (List.length (slice_from s k) <= List.length s)%nat.
Proof.
  unfold slice_from. destruct (0 <=? k); rewrite length_skipn; lia.
Qed.

Lemma body_progress self :
  let '(ctl, r) := body decode to_int self in
  ctl = Continue -> (pending (final r) < pending self)%nat.
Proof.
  unfold body, pending.
  destruct (_bulk_length self) as [bulk_length|] eqn:BL.
  - destruct (len (_buffer self) <? bulk_length + 2); [discriminate|].
    destruct (decode _); [|discriminate].
    intros _. unfold bulkDataReceived.
    match goal with
    | |- context [responseReceived ?s ?v] =>
        destruct (completes_responseReceived s v) as [B L _ _ _]
    end.
    rewrite B, L. simpl.
    pose proof (slice_from_length (_buffer self) (bulk_length + 2)). lia.
  - destruct (split_crlf (_buffer self)) as [[line rest]|] eqn:E; [|discriminate].
    apply split_crlf_length in E.
    destruct line as [|reply_type tail].
    + intros _. cbn [final ok set_buffer _buffer _bulk_length].
      rewrite BL. simpl List.length in E. lia.
    + destruct (decode tail) as [reply_data|]; [|discriminate].
      pose proof (dispatch_orderly (set_buffer self rest) reply_type reply_data) as H.
      destruct (dispatch _ _ _ _) as [ctl r]. destruct H as [_ B].
      intros _. rewrite B. cbn [set_buffer _buffer].
      simpl List.length in E.
      destruct (_bulk_length (final r)); lia.
Qed.

Lemma loop_finishes budget :
  forall self, (pending self < budget)%nat ->
               out (loop decode to_int budget self) <> Unfinished.
Proof.
  induction budget as [|budget IH]; intros self P; [lia|].
  simpl. destruct (_buffer self) eqn:B; [discriminate|].
  pose proof (body_progress self) as G. pose proof (body_orderly self) as O.
  destruct (body decode to_int self) as [ctl r].
  destruct (out r) eqn:R; try (rewrite R; discriminate).
  - destruct ctl.
    + simpl. apply IH. specialize (G eq_refl). lia.
    + rewrite R. discriminate.
  - destruct O as [_ _ F]. contradiction.
Qed.

Lemma loop_orderly budget :
  forall self,
    let r := loop decode to_int budget self in
    _disconnected (final r) = _disconnected self /\
    _request_queue self = map fst (fired r) ++ _request_queue (final r).
Proof.
  induction budget as [|budget IH]; intros self; simpl.
  - destruct (_buffer self); simpl; auto.
  - destruct (_buffer self) eqn:B; [simpl; auto|].
    pose proof (body_orderly self) as O.
    destruct (body decode to_int self) as [ctl r].
    destruct O as [D Q _].
    destruct (out r), ctl; auto.
    simpl. destruct (IH (final r)) as [D' Q'].
    split; [congruence|].
    rewrite map_app, <- app_assoc.
    etransitivity; [exact Q|]. f_equal. exact Q'.
Qed.

(** The receive loop always comes to an end. *)
Lemma dataReceived_finishes self data :
  out (dataReceived decode to_int self data) <> Unfinished.
Proof.
  unfold dataReceived. apply loop_finishes.
  unfold budget_for, pending.
  destruct (_bulk_length _); lia.
Qed.

Lemma dataReceived_orderly self data :
  orderly self (dataReceived decode to_int self data).
Proof.
  split.
  - apply (loop_orderly _ (set_buffer self (_buffer self ++ data))).
  - apply (loop_orderly _ (set_buffer self (_buffer self ++ data))).
  - apply dataReceived_finishes.
Qed.

End DecoderFacts.

(** ** Chunk boundaries *)

(** C1: how the stream is cut into chunks shows in what is delivered.  With
    two requests waiting, a null array followed by a status reply in one
    chunk completes only the first request and leaves the status reply in the
    buffer; the same bytes cut after the null array complete both. *)
Theorem null_array_ends_the_pass :
  let self := awaiting [0%nat; 1%nat] in
  let whole := feed self (b "*-1" ++ SYM_CRLF ++ b "+OK" ++ SYM_CRLF) in
  let first := feed self (b "*-1" ++ SYM_CRLF) in
  let second := feed (final first) (b "+OK" ++ SYM_CRLF) in
  fired whole = [(0%nat, callback VNone)] /\
  _buffer (final whole) = b "+OK" ++ SYM_CRLF /\
  _request_queue (final whole) = [1%nat] /\
  fired first ++ fired second =
    [(0%nat, callback VNone); (1%nat, callback (VText "OK"))] /\
  _buffer (final second) = [].
Proof. vm_compute. repeat split. Qed.

(** ** Malformed integers *)

(** C2: a length line that is not an integer ends the pass.  With two
    requests waiting, [$x] or [*x] followed by a status reply in one chunk
    hands the InvalidResponse to the first request and leaves the status
    reply in the buffer, the second request still waiting; after [:x] the
    status reply is decoded in the same pass. *)
Theorem malformed_length_ends_the_pass :
  let self := awaiting [0%nat; 1%nat] in
  let bulk := feed self (b "$x" ++ SYM_CRLF ++ b "+OK" ++ SYM_CRLF) in
  let multi := feed self (b "*x" ++ SYM_CRLF ++ b "+OK" ++ SYM_CRLF) in
  let integer := feed self (b ":x" ++ SYM_CRLF ++ b "+OK" ++ SYM_CRLF) in
  (fired bulk = [(0%nat, callback (VExc (cannot_convert "x")))] /\
   _buffer (final bulk) = b "+OK" ++ SYM_CRLF /\
   _request_queue (final bulk) = [1%nat]) /\
  (fired multi = [(0%nat, callback (VExc (cannot_convert "x")))] /\
   _buffer (final multi) = b "+OK" ++ SYM_CRLF /\
   _request_queue (final multi) = [1%nat]) /\
  (fired integer = [(0%nat, callback (VExc (cannot_convert "x")));
                    (1%nat, callback (VText "OK"))] /\
   _buffer (final integer) = [] /\
   _request_queue (final integer) = []).
Proof. vm_compute. repeat split. Qed.

(** ** The completion path *)

Lemma set_stack_same self : set_stack self (_multi_bulk_stack self) = self.
Proof. destruct self; reflexivity. Qed.

Lemma handleMultiBulkElement_on_routed stack :
  forall self element,
    collecting stack -> stack <> [] ->
    exists stack' top,
      routed stack element stack' top /\
      handleMultiBulkElement_on stack self element =
        match top with
        | Some reply => provide (set_stack self stack') reply
        | None => ok (set_stack self stack')
        end.
Proof.
  induction stack as [|[remaining collected] below IH]; intros self element C N.
  - contradiction.
  - inversion C as [|f l Hf Hbelow]; subst.
    destruct collected as [replies|]; [|simpl in Hf; contradiction].
    simpl. destruct (remaining - 1 =? 0) eqn:E.
    + apply Z.eqb_eq in E. destruct below as [|f below'].
      * exists [], (Some (VList (replies ++ [element]))). split; [|reflexivity].
        apply routed_filled; [exact E|apply routed_top].
      * destruct (IH (set_stack self (f :: below')) (VList (replies ++ [element]))
                     Hbelow) as (stack' & top & R & H); [discriminate|].
        exists stack', top. split.
        -- apply routed_filled; assumption.
        -- rewrite H. destruct top; reflexivity.
    + apply Z.eqb_neq in E.
      exists ((remaining - 1, Some (replies ++ [element])) :: below), None.
      split; [apply routed_next; exact E|reflexivity].
Qed.

Lemma responseReceived_routed self reply :
  collecting (_multi_bulk_stack self) ->
  exists stack' top,
    routed (_multi_bulk_stack self) reply stack' top /\
    responseReceived self reply =
      match top with
      | Some v => provide (set_stack self stack') v
      | None => ok (set_stack self stack')
      end.
Proof.
  intros C. unfold responseReceived, handleMultiBulkElement.
  destruct (_multi_bulk_stack self) as [|f stack] eqn:S.
  - exists [], (Some reply). split; [apply routed_top|].
    rewrite <- S, set_stack_same. reflexivity.
  - apply handleMultiBulkElement_on_routed; [exact C|discriminate].
Qed.

Lemma multiBulkDataReceived_pushed self remaining collected :
  multiBulkDataReceived
    (set_stack self ((remaining, collected) :: _multi_bulk_stack self)) =
  responseReceived self
    match collected with Some replies => VList replies | None => VNone end.
Proof.
  destruct self as [buffer bulk_length disconnected stack queue].
  unfold multiBulkDataReceived, handleCompleteMultiBulkData, responseReceived.
  cbn [set_stack _multi_bulk_stack _buffer _bulk_length _disconnected _request_queue].
  destruct stack; reflexivity.
Qed.

(** A reply line with a malformed integer: the InvalidResponse goes to
    [responseReceived] whatever the line kind, and the pass goes on only
    after [:]. *)
Lemma malformed_integer_completes to_int self data :
  to_int data = None ->
  let r := responseReceived self (VExc (cannot_convert data)) in
  dispatch to_int self ":" data = (Continue, r) /\
  dispatch to_int self "$" data = (Return, r) /\
  dispatch to_int self "*" data = (Return, r).
Proof.
  intros H. unfold dispatch, integerReceived, responseReceived.
  cbn. rewrite H. destruct (_multi_bulk_stack self); repeat split.
Qed.

(** With a frame of two elements open and one request waiting, an error
    line fires the request's errback and the frame stays as it was, which no
    routing of the error through the frame produces. *)
Lemma error_reply_skips_open_frame :
  let r := feed (awaiting [0%nat]) (b "*2" ++ SYM_CRLF ++ b "-ERR x" ++ SYM_CRLF) in
  fired r = [(0%nat, errback (ResponseError "x"))] /\
  _multi_bulk_stack (final r) = [(2, Some [])] /\
  ~ exists top,
      routed [(2, Some [])] (VExc (ResponseError "x"))
             (_multi_bulk_stack (final r)) top.
Proof.
  vm_compute fired. vm_compute _multi_bulk_stack.
  repeat split. intros [top R].
  inversion R; subst; discriminate.
Qed.

(** C3: an error line met while an array frame is open is not routed through
    the completion path.  [errorReceived] never looks at the stack, as
    [integerReceived] and [responseReceived] do: with three requests waiting
    and the array [*2] of an error and an integer followed by two status
    replies, the error fails the first request, the frame is left one element
    short and takes the first status reply for its second element, so the
    second request gets the list of the integer and that status text.  With
    an integer in the place of the error the array is assembled and the three
    requests get their three replies. *)
Theorem error_reply_misses_open_frame :
  let self := awaiting [0%nat; 1%nat; 2%nat] in
  let after_array := b ":1" ++ SYM_CRLF ++ b "+PONG" ++ SYM_CRLF ++ b "+OK" ++ SYM_CRLF in
  let met := feed self (b "*2" ++ SYM_CRLF ++ b "-ERR x" ++ SYM_CRLF) in
  let whole := feed self (b "*2" ++ SYM_CRLF ++ b "-ERR x" ++ SYM_CRLF ++ after_array) in
  let sibling := feed self (b "*2" ++ SYM_CRLF ++ b ":7" ++ SYM_CRLF ++ after_array) in
  (fired met = [(0%nat, errback (ResponseError "x"))] /\
   _multi_bulk_stack (final met) = [(2, Some [])]) /\
  (fired whole = [(0%nat, errback (ResponseError "x"));
                  (1%nat, callback (VList [VInt 1; VText "PONG"]));
                  (2%nat, callback (VText "OK"))] /\
   _request_queue (final whole) = []) /\
  (fired sibling = [(0%nat, callback (VList [VInt 7; VInt 1]));
                    (1%nat, callback (VText "PONG"));
                    (2%nat, callback (VText "OK"))] /\
   _request_queue (final sibling) = []).
Proof. vm_compute. repeat split. Qed.

(** Every completed element of a non-error kind goes through
    [responseReceived]: a status line, an integer line (also a malformed
    one), a null bulk, bulk data, a null array and an empty array; and
    [responseReceived] is the completion path of the specification, storing
    the element in the innermost open frame, completing filled frames
    upwards, and providing a top-level reply to the oldest request.  An
    error line goes to the oldest request whatever the stack holds. *)
Theorem completion_path decode to_int self :
  collecting (_multi_bulk_stack self) ->
  (forall reply, exists stack' top,
      routed (_multi_bulk_stack self) reply stack' top /\
      responseReceived self reply =
        match top with
        | Some v => provide (set_stack self stack') v
        | None => ok (set_stack self stack')
        end) /\
  (forall data,
      dispatch to_int self "+" data =
      (Continue,
       responseReceived self (if String.eqb data "none" then VNone else VText data))) /\
  (forall data,
      dispatch to_int self ":" data =
      (Continue,
       responseReceived self match to_int data with
                             | Some n => VInt n
                             | None => VExc (cannot_convert data)
                             end)) /\
  (forall data, to_int data = Some (-1) ->
      dispatch to_int self "$" data =
      (Continue, responseReceived (set_bulk_length self None) VNone)) /\
  (forall n data,
      _bulk_length self = Some n ->
      (len (_buffer self) <? n + 2) = false ->
      decode (slice_to (_buffer self) n) = Some data ->
      body decode to_int self =
      (Continue,
       responseReceived
         (set_bulk_length (set_buffer self (slice_from (_buffer self) (n + 2))) None)
         (VText data))) /\
  (forall data, to_int data = Some (-1) ->
      dispatch to_int self "*" data = (Return, responseReceived self VNone)) /\
  (forall data, to_int data = Some 0 ->
      dispatch to_int self "*" data = (Continue, responseReceived self (VList []))) /\
  (forall data,
      let r := errorReceived self data in
      _multi_bulk_stack (final r) = _multi_bulk_stack self /\
      match _request_queue self with
      | d :: waiting =>
          fired r = [(d, errback (classify data))] /\ _request_queue (final r) = waiting
      | [] => out r = Raised (classify data)
      end).
Proof.
  intros C. repeat apply conj.
  - intros reply. apply responseReceived_routed. exact C.
  - reflexivity.
  - intros data. unfold dispatch, integerReceived, responseReceived.
    cbn. destruct (_multi_bulk_stack self); reflexivity.
  - intros data H. unfold dispatch, bulkDataReceived. cbn. rewrite H. reflexivity.
  - intros n data B L D. unfold body, bulkDataReceived.
    rewrite B, L, D. reflexivity.
  - intros data H.
    rewrite <- (multiBulkDataReceived_pushed self (-1) None).
    unfold dispatch. cbn -[multiBulkDataReceived]. rewrite H. reflexivity.
  - intros data H.
    rewrite <- (multiBulkDataReceived_pushed self 0 (Some [])).
    unfold dispatch. cbn -[multiBulkDataReceived]. rewrite H. reflexivity.
  - intros data. unfold errorReceived.
    destruct (_request_queue self); simpl; auto.
Qed.

Lemma completion_path_witness :
  let self := mkRedisBase [] None false [(1, Some [VInt 1]); (2, Some [])] [7%nat] in
  collecting (_multi_bulk_stack self) /\
  exists stack' top,
    routed (_multi_bulk_stack self) (VText "a") stack' top /\
    responseReceived self (VText "a") =
      match top with
      | Some v => provide (set_stack self stack') v
      | None => ok (set_stack self stack')
      end.
Proof.
  intros self.
  assert (C : collecting (_multi_bulk_stack self))
    by (repeat constructor; discriminate).
  split; [exact C|].
  exact (proj1 (completion_path ascii_decode decimal_int self C) (VText "a")).
Defined.

(** ** Requests and replies in order *)

Section Correlation.

Variable decode : bytes -> option string.
Variable to_int : string -> option Z.
Variable encode_text : string -> option bytes.

Lemma receive_orderly chunks :
  forall self,
    let r := receive decode to_int self chunks in
    _disconnected (final r) = _disconnected self /\
    _request_queue self = map fst (fired r) ++ _request_queue (final r).
Proof.
  induction chunks as [|data more IH]; intros self; simpl; [auto|].
  destruct (dataReceived_orderly decode to_int self data) as [D Q _].
  destruct (out (dataReceived decode to_int self data)); auto.
  simpl. destruct (IH (final (dataReceived decode to_int self data))) as [D' Q'].
  split; [congruence|].
  rewrite map_app, <- app_assoc.
  etransitivity; [exact Q|]. f_equal. exact Q'.
Qed.

Lemma send_queue self d command args :
  let s := send encode_text self d command args in
  _request_queue (after_send s) =
    _request_queue self ++ slots [returned s] /\
  _disconnected (after_send s) = _disconnected self.
Proof.
  unfold send, getResponse.
  destruct (_pack encode_text command args); simpl.
  - destruct (_disconnected self) eqn:D; simpl; auto using app_nil_r.
  - auto using app_nil_r.
Qed.

Lemma sends_queue requests :
  forall self,
    let '(self', answers) := sends encode_text self requests in
    _request_queue self' = _request_queue self ++ slots answers /\
    _disconnected self' = _disconnected self.
Proof.
  induction requests as [|[[d command] args] more IH]; intros self; simpl.
  - auto using app_nil_r.
  - destruct (send_queue self d command args) as [Q D].
    specialize (IH (after_send (send encode_text self d command args))).
    destruct (sends encode_text _ more) as [self' answers].
    destruct IH as [Q' D']. split; [|congruence].
    rewrite Q', Q, <- app_assoc. f_equal.
    simpl. destruct (returned _) as [[d'|e]|]; reflexivity.
Qed.

Lemma sends_connected requests :
  forall self,
    _disconnected self = false ->
    Forall (packable encode_text) requests ->
    snd (sends encode_text self requests) =
    map (fun rq : request => Some (Waiting (fst (fst rq)))) requests.
Proof.
  induction requests as [|[[d command] args] more IH]; intros self D P; simpl.
  - reflexivity.
  - inversion P as [|rq l Prq Pmore]; subst.
    destruct (send_queue self d command args) as [_ D'].
    specialize (IH (after_send (send encode_text self d command args))).
    destruct (sends encode_text _ more) as [self' answers]. simpl in *.
    rewrite IH by (assumption || congruence). f_equal.
    unfold send, getResponse.
    destruct (_pack encode_text command args); [|contradiction].
    rewrite D. reflexivity.
Qed.

Lemma sends_disconnected requests :
  forall self,
    _disconnected self = true ->
    fst (sends encode_text self requests) = self /\
    slots (snd (sends encode_text self requests)) = [] /\
    (Forall (packable encode_text) requests ->
     snd (sends encode_text self requests) =
     map (fun _ => Some (Failed (RuntimeError "Not connected"))) requests).
Proof.
  induction requests as [|[[d command] args] more IH]; intros self D; simpl.
  - auto.
  - assert (S : after_send (send encode_text self d command args) = self).
    { unfold send, getResponse.
      destruct (_pack encode_text command args); [rewrite D|]; reflexivity. }
    rewrite S. destruct (IH self D) as (F & E & A).
    destruct (sends encode_text self more) as [self' answers]. simpl in *.
    split; [exact F|]. split.
    + unfold send, getResponse.
      destruct (_pack encode_text command args); [rewrite D|]; exact E.
    + intros P. inversion P as [|rq l Prq Pmore]; subst.
      rewrite (A Pmore). f_equal.
      unfold send, getResponse. simpl in Prq.
      destruct (_pack encode_text command args); [|contradiction].
      rewrite D. reflexivity.
Qed.

End Correlation.

(** Deferreds are fired oldest first.  After any sends and any chunks, the
    deferreds fired so far, in firing order, followed by the deferreds still
    queued are exactly the deferreds queued before followed by the slots the
    sends created, in creation order; on a connected protocol every send that
    encodes creates its slot. *)
Theorem fifo_correlation decode to_int encode_text self requests chunks :
  let '(ready, answers) := sends encode_text self requests in
  let r := receive decode to_int ready chunks in
  _request_queue self ++ slots answers =
    map fst (fired r) ++ _request_queue (final r) /\
  (_disconnected self = false ->
   Forall (packable encode_text) requests ->
   slots answers = map (fun rq : request => fst (fst rq)) requests).
Proof.
  pose proof (sends_queue encode_text requests self) as Q.
  pose proof (sends_connected encode_text requests self) as C.
  destruct (sends encode_text self requests) as [ready answers].
  destruct Q as [Q _]. split.
  - rewrite <- Q. apply receive_orderly.
  - intros D P. simpl in C. rewrite (C D P).
    clear. induction requests as [|rq more IH]; simpl; [reflexivity|].
    f_equal. exact IH.
Qed.

Lemma fifo_correlation_witness :
  let requests : list request :=
    [(0%nat, "GET"%string, [Unicode "a"]);
     (1%nat, "INCR"%string, [Unicode "n"]);
     (2%nat, "PING"%string, [])] in
  let chunk := b "$1" ++ SYM_CRLF ++ b "x" ++ SYM_CRLF ++
               b ":5" ++ SYM_CRLF ++ b "+PONG" ++ SYM_CRLF in
  _disconnected init = false /\
  Forall (packable ascii_encode) requests /\
  slots (snd (sends ascii_encode init requests)) = [0%nat; 1%nat; 2%nat] /\
  fired (receive ascii_decode decimal_int
                 (fst (sends ascii_encode init requests)) [chunk]) =
    [(0%nat, callback (VText "x")); (1%nat, callback (VInt 5));
     (2%nat, callback (VText "PONG"))].
Proof.
  intros requests chunk.
  assert (D : _disconnected init = false) by reflexivity.
  assert (P : Forall (packable ascii_encode) requests)
    by (repeat constructor; vm_compute; discriminate).
  pose proof (fifo_correlation ascii_decode decimal_int ascii_encode
                               init requests [chunk]) as T.
  destruct (sends ascii_encode init requests) as [ready answers] eqn:E.
  destruct T as [_ T].
  split; [exact D|]. split; [exact P|]. split; [exact (T D P)|].
  vm_compute in E. inversion E; subst. vm_compute. reflexivity.
Defined.

(** C4: two pipelined sends whose two replies arrive in one chunk are not
    both resolved when the first reply is a null array: the first request is
    called back with [None], the call returns, and the second reply stays in
    the buffer with the second request still waiting, so one reply is
    delivered for two slots.  With an empty array for the first reply both
    requests are resolved by the one call, in send order. *)
Theorem pipelined_null_array_leaves_reply :
  let requests : list request :=
    [(0%nat, "LRANGE"%string, [Unicode "k"; Integer 0; Integer 1]);
     (1%nat, "PING"%string, [])] in
  let ready := fst (sends ascii_encode init requests) in
  let r := receive ascii_decode decimal_int ready
                   [b "*-1" ++ SYM_CRLF ++ b "+PONG" ++ SYM_CRLF] in
  let sibling := receive ascii_decode decimal_int ready
                         [b "*0" ++ SYM_CRLF ++ b "+PONG" ++ SYM_CRLF] in
  slots (snd (sends ascii_encode init requests)) = [0%nat; 1%nat] /\
  (fired r = [(0%nat, callback VNone)] /\
   _request_queue (final r) = [1%nat] /\
   _buffer (final r) = b "+PONG" ++ SYM_CRLF) /\
  (fired sibling = [(0%nat, callback (VList [])); (1%nat, callback (VText "PONG"))] /\
   _request_queue (final sibling) = [] /\
   _buffer (final sibling) = []).
Proof. vm_compute. repeat split. Qed.

(** ** Null and empty replies *)

(** A call whose data is used up by one pass: the pass is all it does. *)
Lemma one_line_call decode to_int queue data ctl r :
  data <> [] ->
  body decode to_int (mkRedisBase data None false [] queue) = (ctl, r) ->
  _buffer (final r) = [] ->
  dataReceived decode to_int (awaiting queue) data = r.
Proof.
  intros N E F. destruct data as [|c data]; [contradiction|].
  unfold dataReceived, awaiting.
  change (set_buffer (mkRedisBase [] None false [] queue)
                     (_buffer (mkRedisBase [] None false [] queue) ++ c :: data))
    with (mkRedisBase (c :: data) None false [] queue).
  unfold budget_for.
  replace (2 * List.length (_buffer (mkRedisBase (c :: data) None false [] queue)) + 2)%nat
    with (S (2 * List.length (c :: data) + 1)) by (cbn [_buffer]; lia).
  cbn [loop _buffer]. rewrite E.
  destruct r as [o self' evs]. cbn [out final fired] in *.
  destruct o, ctl; try reflexivity.
  destruct (2 * List.length (c :: data) + 1)%nat; cbn [loop]; rewrite F;
    cbn [ok out final fired]; rewrite app_nil_r; reflexivity.
Qed.

(** C5: [$-1] completes the oldest request with the null value, [*-1]
    completes it with the null array (also [None]), and [*0] completes it
    with the empty list, which is a different reply. *)
Theorem null_and_empty_replies decode to_int d waiting :
  decode (b "-1") = Some "-1"%string ->
  decode (b "0") = Some "0"%string ->
  to_int "-1"%string = Some (-1) ->
  to_int "0"%string = Some 0 ->
  let self := awaiting (d :: waiting) in
  let null_bulk := dataReceived decode to_int self (b "$-1" ++ SYM_CRLF) in
  let null_array := dataReceived decode to_int self (b "*-1" ++ SYM_CRLF) in
  let empty_array := dataReceived decode to_int self (b "*0" ++ SYM_CRLF) in
  null_bulk = mkResult Normal (awaiting waiting) [(d, callback VNone)] /\
  null_array = mkResult Normal (awaiting waiting) [(d, callback VNone)] /\
  empty_array = mkResult Normal (awaiting waiting) [(d, callback (VList []))] /\
  fired null_array <> fired empty_array.
Proof.
  intros D1 D0 I1 I0 self null_bulk null_array empty_array.
  cbn in D1, D0.
  assert (B : null_bulk = mkResult Normal (awaiting waiting) [(d, callback VNone)]).
  { apply (one_line_call decode to_int _ _ Continue); [discriminate| |reflexivity].
    unfold body. cbn. rewrite D1. cbn. rewrite I1. reflexivity. }
  assert (A : null_array = mkResult Normal (awaiting waiting) [(d, callback VNone)]).
  { apply (one_line_call decode to_int _ _ Return); [discriminate| |reflexivity].
    unfold body. cbn. rewrite D1. cbn. rewrite I1. reflexivity. }
  assert (E : empty_array =
              mkResult Normal (awaiting waiting) [(d, callback (VList []))]).
  { apply (one_line_call decode to_int _ _ Continue); [discriminate| |reflexivity].
    unfold body. cbn. rewrite D0. cbn. rewrite I0. reflexivity. }
  repeat apply conj; try assumption.
  rewrite A, E. simpl. intros H. inversion H.
Qed.

Lemma null_and_empty_replies_witness :
  (ascii_decode (b "-1") = Some "-1"%string /\
   ascii_decode (b "0") = Some "0"%string /\
   decimal_int "-1" = Some (-1) /\
   decimal_int "0" = Some 0) /\
  feed (awaiting [4%nat]) (b "$-1" ++ SYM_CRLF) =
    mkResult Normal (awaiting []) [(4%nat, callback VNone)] /\
  feed (awaiting [4%nat]) (b "*-1" ++ SYM_CRLF) =
    mkResult Normal (awaiting []) [(4%nat, callback VNone)] /\
  feed (awaiting [4%nat]) (b "*0" ++ SYM_CRLF) =
    mkResult Normal (awaiting []) [(4%nat, callback (VList []))].
Proof.
  assert (D1 : ascii_decode (b "-1") = Some "-1"%string) by reflexivity.
  assert (D0 : ascii_decode (b "0") = Some "0"%string) by reflexivity.
  assert (I1 : decimal_int "-1" = Some (-1)) by reflexivity.
  assert (I0 : decimal_int "0" = Some 0) by reflexivity.
  destruct (null_and_empty_replies ascii_decode decimal_int 4%nat [] D1 D0 I1 I0)
    as (B & A & E & _).
  split; [repeat split; assumption|].
  split; [exact B|]. split; [exact A|exact E].
Defined.

(** ** The encoder *)

(** C6: [send("CONFIG GET", "maxmemory")] writes the command name as the two
    tokens [CONFIG] and [GET] and then the argument, each with its length:
    exactly [*3\r\n$6\r\nCONFIG\r\n$3\r\nGET\r\n$9\r\nmaxmemory\r\n], whether
    the argument is text or already a byte string. *)
Theorem config_get_encoding encode_text self d :
  encode_text "maxmemory"%string = Some (b "maxmemory") ->
  let wire := b "*3" ++ SYM_CRLF ++
              b "$6" ++ SYM_CRLF ++ b "CONFIG" ++ SYM_CRLF ++
              b "$3" ++ SYM_CRLF ++ b "GET" ++ SYM_CRLF ++
              b "$9" ++ SYM_CRLF ++ b "maxmemory" ++ SYM_CRLF in
  pack_args "CONFIG GET" [Unicode "maxmemory"] =
    [Token "CONFIG"; Token "GET"; Unicode "maxmemory"] /\
  _pack encode_text "CONFIG GET" [Unicode "maxmemory"] = Some [wire] /\
  _pack encode_text "CONFIG GET" [Binary (b "maxmemory")] = Some [wire] /\
  written (send encode_text self d "CONFIG GET" [Unicode "maxmemory"]) = [wire].
Proof.
  intros H wire.
  assert (P : _pack encode_text "CONFIG GET" [Unicode "maxmemory"] = Some [wire]).
  { unfold _pack. cbn. rewrite H. reflexivity. }
  repeat apply conj.
  - reflexivity.
  - exact P.
  - reflexivity.
  - unfold send. rewrite P. destruct (getResponse self d). reflexivity.
Qed.

Lemma config_get_encoding_witness :
  ascii_encode "maxmemory" = Some (b "maxmemory") /\
  written (send ascii_encode init 0%nat "CONFIG GET" [Unicode "maxmemory"]) =
    [b "*3" ++ SYM_CRLF ++
     b "$6" ++ SYM_CRLF ++ b "CONFIG" ++ SYM_CRLF ++
     b "$3" ++ SYM_CRLF ++ b "GET" ++ SYM_CRLF ++
     b "$9" ++ SYM_CRLF ++ b "maxmemory" ++ SYM_CRLF].
Proof.
  assert (H : ascii_encode "maxmemory" = Some (b "maxmemory")) by reflexivity.
  split; [exact H|].
  exact (proj2 (proj2 (proj2 (config_get_encoding ascii_encode init 0%nat H)))).
Defined.

Section Packing.

Variable encode_text : string -> option bytes.

Lemma encode_all_length args :
  forall encoded, encode_all encode_text args = Some encoded ->
                  List.length encoded = List.length args.
Proof.
  induction args as [|a args IH]; simpl; intros encoded H.
  - inversion H. reflexivity.
  - destruct (encode encode_text a); [|discriminate].
    destruct (encode_all encode_text args); [|discriminate].
    inversion H. simpl. f_equal. apply IH. reflexivity.
Qed.

(** The loop keeps the bytes written so far: the chunks put out followed
    by [buff] and by what the remaining arguments will add. *)
Lemma pack_loop_concat args :
  forall buff output,
    option_map (@List.concat byte) (pack_loop encode_text args buff output) =
    option_map (fun encoded => List.concat output ++ buff ++ flat_map bulk_of encoded)
               (encode_all encode_text args).
Proof.
  induction args as [|a args IH]; intros buff output; cbn [pack_loop encode_all].
  - cbn [option_map flat_map]. rewrite List.concat_app. cbn [List.concat].
    rewrite !app_nil_r. reflexivity.
  - destruct (encode encode_text a) as [arg|]; [|reflexivity].
    destruct ((6000 <? len buff) || (6000 <? len arg)); rewrite IH;
      destruct (encode_all encode_text args) as [encoded|];
      cbn [option_map]; try reflexivity;
      f_equal; cbn [flat_map]; unfold bulk_of;
      rewrite ?List.concat_app; cbn [List.concat];
      rewrite ?app_nil_r; repeat rewrite <- app_assoc; reflexivity.
Qed.

End Packing.

(** C7: the chunks [_pack] returns, laid end to end, are the single-buffer
    encoding of the arguments, whichever way the loop went at the size
    threshold; and [_pack] raises exactly when an argument fails to encode. *)
Theorem pack_flush_invariance encode_text command args :
  option_map (@List.concat byte) (_pack encode_text command args) =
  option_map canonical_encoding
             (encode_all encode_text (pack_args command args)).
Proof.
  unfold _pack. rewrite pack_loop_concat.
  destruct (encode_all encode_text (pack_args command args)) as [encoded|] eqn:E;
    [|reflexivity].
  simpl. unfold canonical_encoding, len.
  rewrite (encode_all_length _ _ _ E), <- !app_assoc. reflexivity.
Qed.

(** An argument above the threshold is put out as a chunk of its own, between
    the header so far and the terminator. *)
Lemma large_argument_is_flushed :
  let large := repeat "a"%byte (Z.to_nat 6001) in
  _pack ascii_encode "SET" [Unicode "k"; Binary large] =
    Some [b "*3" ++ SYM_CRLF ++ b "$3" ++ SYM_CRLF ++ b "SET" ++ SYM_CRLF ++
          b "$1" ++ SYM_CRLF ++ b "k" ++ SYM_CRLF ++ b "$6001" ++ SYM_CRLF;
          large;
          SYM_CRLF].
Proof. vm_compute. reflexivity. Qed.

(** ** Losing the connection *)

Lemma failRequests_on_spec queue :
  forall self reason,
    let r := failRequests_on queue self reason in
    out r = Normal /\
    fired r = map (fun d => (d, errback reason)) queue /\
    final r = match queue with [] => self | _ :: _ => set_queue self [] end.
Proof.
  induction queue as [|d waiting IH]; intros self reason; simpl.
  - auto.
  - destruct (IH (set_queue self waiting) reason) as (O & F & S).
    repeat split; [exact O | f_equal; exact F |].
    rewrite S. destruct waiting; reflexivity.
Qed.

(** C8: when the connection is lost every queued request is failed with the
    reason, oldest first, and the queue is empty afterwards; every later
    [send] leaves the queue empty and creates no slot, and returns
    [defer.fail(RuntimeError("Not connected"))] once its arguments are
    encoded. *)
Theorem connection_lost_fails_requests encode_text self reason requests :
  let r := connectionLost self reason in
  out r = Normal /\
  fired r = map (fun d => (d, errback reason)) (_request_queue self) /\
  _request_queue (final r) = [] /\
  _disconnected (final r) = true /\
  let '(self', answers) := sends encode_text (final r) requests in
  _request_queue self' = [] /\
  slots answers = [] /\
  (Forall (packable encode_text) requests ->
   answers = map (fun _ => Some (Failed (RuntimeError "Not connected"))) requests).
Proof.
  unfold connectionLost, failRequests.
  destruct (failRequests_on_spec (_request_queue (set_disconnected self true))
                                 (set_disconnected self true) reason)
    as (O & F & S).
  cbv zeta in *.
  set (r := failRequests_on _ _ _) in *.
  assert (Q : _request_queue (final r) = []).
  { rewrite S. simpl. destruct (_request_queue self) eqn:E; simpl; auto. }
  assert (D : _disconnected (final r) = true).
  { rewrite S. simpl. destruct (_request_queue self); reflexivity. }
  repeat apply conj; try assumption.
  destruct (sends_disconnected encode_text requests (final r) D) as (S1 & S2 & S3).
  destruct (sends encode_text (final r) requests) as [self' answers].
  simpl in *. subst self'. auto.
Qed.

Lemma connection_lost_fails_requests_witness :
  let self := mkRedisBase (b "+O") None false [] [0%nat; 1%nat; 2%nat] in
  let requests : list request :=
    [(3%nat, "GET"%string, [Unicode "a"]); (4%nat, "PING"%string, [])] in
  Forall (packable ascii_encode) requests /\
  fired (connectionLost self ConnectionLost) =
    [(0%nat, errback ConnectionLost); (1%nat, errback ConnectionLost);
     (2%nat, errback ConnectionLost)] /\
  _request_queue (final (connectionLost self ConnectionLost)) = [] /\
  snd (sends ascii_encode (final (connectionLost self ConnectionLost)) requests) =
    [Some (Failed (RuntimeError "Not connected"));
     Some (Failed (RuntimeError "Not connected"))].
Proof.
  intros self requests.
  assert (P : Forall (packable ascii_encode) requests)
    by (repeat constructor; vm_compute; discriminate).
  pose proof (connection_lost_fails_requests ascii_encode self ConnectionLost requests)
    as (_ & F & Q & _ & T).
  destruct (sends ascii_encode _ requests) as [self' answers].
  destruct T as (_ & _ & A).
  split; [exact P|]. split; [exact F|]. split; [exact Q|]. exact (A P).
Defined.

(** ** Replies with nobody waiting *)

Lemma split_crlf_cons c d rest :
  split_crlf (c :: d :: rest) =
  if Byte.eqb c x0d && Byte.eqb d x0a then Some ([], rest)
  else match split_crlf (d :: rest) with
       | Some (line, after) => Some (c :: line, after)
       | None => None
       end.
Proof. reflexivity. Qed.

(** A line that holds no terminator is what [split_crlf] cuts off when the
    terminator follows it. *)
Lemma split_crlf_first line :
  forall rest,
    split_crlf line = None ->
    split_crlf (line ++ SYM_CRLF ++ rest) = Some (line, rest).
Proof.
  induction line as [|c line IH]; intros rest H.
  - reflexivity.
  - destruct line as [|d line'].
    + change (([c] ++ SYM_CRLF ++ rest)) with (c :: x0d :: x0a :: rest).
      rewrite split_crlf_cons.
      replace (Byte.eqb c x0d && Byte.eqb x0d x0a) with false
        by (rewrite andb_false_r; reflexivity).
      reflexivity.
    + rewrite split_crlf_cons in H.
      change ((c :: d :: line') ++ SYM_CRLF ++ rest)
        with (c :: d :: (line' ++ SYM_CRLF ++ rest)).
      rewrite split_crlf_cons.
      destruct (Byte.eqb c x0d && Byte.eqb d x0a); [discriminate H|].
      destruct (split_crlf (d :: line')) as [[l a]|] eqn:S; [discriminate H|].
      change (d :: line' ++ SYM_CRLF ++ rest)
        with ((d :: line') ++ SYM_CRLF ++ rest).
      rewrite (IH rest eq_refl). reflexivity.
Qed.

Section Passes.

Variable decode : bytes -> option string.
Variable to_int : string -> option Z.

Lemma loop_passes self evs self' :
  passes decode to_int self evs self' ->
  forall budget,
    (pending self < budget)%nat ->
    exists budget',
      (pending self' < budget')%nat /\
      loop decode to_int budget self =
      let r' := loop decode to_int budget' self' in
      mkResult (out r') (final r') (evs ++ fired r').
Proof.
  induction 1 as [self|self r evs self' B E O P IH]; intros budget L.
  - exists budget. split; [exact L|].
    destruct (loop decode to_int budget self); reflexivity.
  - destruct budget as [|budget]; [lia|].
    pose proof (body_progress decode to_int self) as G.
    rewrite E in G. specialize (G eq_refl).
    destruct (IH budget) as (budget' & L' & H); [lia|].
    exists budget'. split; [exact L'|].
    simpl. destruct (_buffer self); [contradiction|].
    rewrite E, O, H. simpl. rewrite app_assoc. reflexivity.
Qed.

(** An exception raised in a pass leaves the loop. *)
Lemma loop_raised budget self ctl r e :
  _buffer self <> [] ->
  body decode to_int self = (ctl, r) ->
  out r = Raised e ->
  loop decode to_int (S budget) self = r.
Proof.
  intros B E O. cbn [loop]. destruct (_buffer self); [contradiction|].
  rewrite E, O. reflexivity.
Qed.

(** The pass that meets an error line with nothing queued. *)
Lemma error_line_raises self text rest message :
  _bulk_length self = None ->
  _request_queue self = [] ->
  _buffer self = b "-" ++ text ++ SYM_CRLF ++ rest ->
  split_crlf (b "-" ++ text) = None ->
  decode text = Some message ->
  body decode to_int self =
  (Continue, raise (classify message) (set_buffer self rest)).
Proof.
  intros BL Q B L D. unfold body. rewrite BL, B.
  change (b "-" ++ text ++ SYM_CRLF ++ rest)
    with ((b "-" ++ text) ++ SYM_CRLF ++ rest).
  rewrite (split_crlf_first _ rest L).
  change (b "-" ++ text) with ("-"%byte :: text). cbv iota. rewrite D.
  unfold dispatch, errorReceived.
  change (Byte.eqb "-" "-") with true. cbv iota.
  cbn [set_buffer _request_queue]. rewrite Q. reflexivity.
Qed.

End Passes.

(** C9: an error line decoded while no request is queued is raised out of
    [dataReceived].  Whatever passes the call makes first, when the loop
    stands at an error line with the queue empty the call ends with the
    classified error as its exception; nothing is fired for the line and the
    frames are left as they were. *)
Theorem error_without_request_is_raised
        decode to_int self data evs self' text rest message :
  passes decode to_int (set_buffer self (_buffer self ++ data)) evs self' ->
  _bulk_length self' = None ->
  _request_queue self' = [] ->
  _buffer self' = b "-" ++ text ++ SYM_CRLF ++ rest ->
  split_crlf (b "-" ++ text) = None ->
  decode text = Some message ->
  dataReceived decode to_int self data =
  mkResult (Raised (classify message)) (set_buffer self' rest) evs.
Proof.
  intros P BL Q B L D. unfold dataReceived.
  destruct (loop_passes decode to_int _ _ _ P
              (budget_for (set_buffer self (_buffer self ++ data))))
    as (budget' & L' & H).
  { unfold budget_for, pending.
    destruct (_bulk_length (set_buffer self (_buffer self ++ data))); lia. }
  rewrite H. destruct budget' as [|budget']; [lia|].
  cbv zeta.
  rewrite (loop_raised decode to_int budget' self' Continue
             (raise (classify message) (set_buffer self' rest)) (classify message)).
  - cbn [out final fired raise]. rewrite app_nil_r. reflexivity.
  - rewrite B. discriminate.
  - apply (error_line_raises decode to_int self' text rest message BL Q B L D).
  - reflexivity.
Qed.

Lemma error_without_request_is_raised_witness :
  let self := awaiting [0%nat] in
  let data := b "+OK" ++ SYM_CRLF ++ b "-ERR unknown command" ++ SYM_CRLF ++ b "+OK" in
  let self' := mkRedisBase (b "-ERR unknown command" ++ SYM_CRLF ++ b "+OK")
                           None false [] [] in
  (passes ascii_decode decimal_int (set_buffer self (_buffer self ++ data))
          [(0%nat, callback (VText "OK"))] self' /\
   _bulk_length self' = None /\ _request_queue self' = [] /\
   _buffer self' = b "-" ++ b "ERR unknown command" ++ SYM_CRLF ++ b "+OK" /\
   split_crlf (b "-" ++ b "ERR unknown command") = None /\
   ascii_decode (b "ERR unknown command") = Some "ERR unknown command"%string) /\
  feed self data =
    mkResult (Raised (ResponseError "unknown command"))
             (set_buffer self' (b "+OK")) [(0%nat, callback (VText "OK"))].
Proof.
  intros self data self'.
  assert (H0 : passes ascii_decode decimal_int
                      (set_buffer self (_buffer self ++ data))
                      [(0%nat, callback (VText "OK"))] self').
  { apply (passes_next ascii_decode decimal_int
                       (set_buffer self (_buffer self ++ data))
                       (mkResult Normal self' [(0%nat, callback (VText "OK"))])
                       [] self').
    - discriminate.
    - reflexivity.
    - reflexivity.
    - apply passes_none. }
  assert (H1 : _bulk_length self' = None) by reflexivity.
  assert (H2 : _request_queue self' = []) by reflexivity.
  assert (H3 : _buffer self' =
               b "-" ++ b "ERR unknown command" ++ SYM_CRLF ++ b "+OK") by reflexivity.
  assert (H4 : split_crlf (b "-" ++ b "ERR unknown command") = None) by reflexivity.
  assert (H5 : ascii_decode (b "ERR unknown command") =
               Some "ERR unknown command"%string) by reflexivity.
  split; [repeat split; assumption|].
  exact (error_without_request_is_raised ascii_decode decimal_int self data
           _ self' (b "ERR unknown command") (b "+OK") "ERR unknown command"
           H0 H1 H2 H3 H4 H5).
Defined.

(** C10: with no frame open and no request queued, [responseReceived] drops
    the reply: it returns normally, fires nothing and leaves the protocol as
    it was, whereas [errorReceived] in the same state raises the error. *)
Theorem reply_without_request_is_dropped self reply data :
  _multi_bulk_stack self = [] ->
  _request_queue self = [] ->
  responseReceived self reply = mkResult Normal self [] /\
  errorReceived self data = mkResult (Raised (classify data)) self [].
Proof.
  intros S Q. unfold responseReceived, provide, errorReceived.
  rewrite S, Q. split; reflexivity.
Qed.

Lemma reply_without_request_is_dropped_witness :
  (_multi_bulk_stack init = [] /\ _request_queue init = []) /\
  responseReceived init (VText "OK") = mkResult Normal init [] /\
  errorReceived init "ERR x" = mkResult (Raised (ResponseError "x")) init [].
Proof.
  assert (S : _multi_bulk_stack init = []) by reflexivity.
  assert (Q : _request_queue init = []) by reflexivity.
  split; [split; assumption|].
  exact (reply_without_request_is_dropped init (VText "OK") "ERR x" S Q).
Defined.

(** The same at the level of the receive loop: a status reply with nobody
    waiting passes without a trace, an error reply is raised. *)
Lemma unsolicited_replies :
  feed init (b "+OK" ++ SYM_CRLF) = mkResult Normal init [] /\
  out (feed init (b "-ERR x" ++ SYM_CRLF)) = Raised (ResponseError "x").
Proof. vm_compute. split; reflexivity. Qed.

(** * More of the decoder *)

(** ** Lines and numbers *)

Lemma split_crlf_plain line :
  Forall (fun c => c <> x0d) line -> split_crlf line = None.
Proof.
  induction line as [|c line IH]; intros F; [reflexivity|].
  inversion F as [|c' l Hc Hl]; subst.
  destruct line as [|d line']; [reflexivity|].
  rewrite split_crlf_cons.
  replace (Byte.eqb c x0d) with false
    by (symmetry; apply Bool.not_true_is_false; intros E;
        apply Hc; apply Byte.byte_dec_bl; exact E).
  cbn [andb]. rewrite (IH Hl). reflexivity.
Qed.

Lemma split_crlf_prefixed c line :
  c <> x0d -> split_crlf line = None -> split_crlf (c :: line) = None.
Proof.
  intros Hc H. destruct line as [|d line']; [reflexivity|].
  rewrite split_crlf_cons, H.
  replace (Byte.eqb c x0d) with false
    by (symmetry; apply Bool.not_true_is_false; intros E;
        apply Hc; apply Byte.byte_dec_bl; exact E).
  reflexivity.
Qed.

Lemma string_of_uint_plain d :
  Forall (fun c => c <> x0d) (b (NilEmpty.string_of_uint d)).
Proof.
  induction d; cbn; constructor; try discriminate; assumption.
Qed.

(** The decimal text of an integer holds no carriage return. *)
Lemma str_plain n : Forall (fun c => c <> x0d) (b (str n)).
Proof.
  unfold str, NilZero.string_of_int, NilZero.string_of_uint.
  destruct (Z.to_int n) as [d|d]; destruct d;
    cbn; repeat constructor; try discriminate;
    apply string_of_uint_plain.
Qed.

Lemma numbered_line_plain c n :
  c <> x0d -> split_crlf (c :: b (str n)) = None.
Proof.
  intros Hc. apply split_crlf_plain. constructor; [exact Hc|apply str_plain].
Qed.

(** ** The loop, pass by pass *)

Section LoopFacts.

Variable decode : bytes -> option string.
Variable to_int : string -> option Z.

(** Any budget above what is pending gives the same run. *)
Lemma loop_budget budget1 :
  forall budget2 self,
    (pending self < budget1)%nat -> (pending self < budget2)%nat ->
    loop decode to_int budget1 self = loop decode to_int budget2 self.
Proof.
  induction budget1 as [|budget1 IH]; intros budget2 self P1 P2; [lia|].
  destruct budget2 as [|budget2]; [lia|].
  cbn [loop]. destruct (_buffer self) eqn:B; [reflexivity|].
  pose proof (body_progress decode to_int self) as G.
  destruct (body decode to_int self) as [ctl r].
  destruct (out r); try reflexivity.
  destruct ctl; try reflexivity.
  specialize (G eq_refl).
  rewrite (IH budget2 (final r)) by lia. reflexivity.
Qed.

Lemma budget_for_enough self : (pending self < budget_for self)%nat.
Proof. unfold budget_for, pending. destruct (_bulk_length self); lia. Qed.

(** [dataReceived] is the loop on the protocol with the data added. *)
Lemma dataReceived_more self data :
  dataReceived decode to_int self data =
  loop decode to_int (budget_for (more self data)) (more self data).
Proof. reflexivity. Qed.

(** The loop on a protocol is the call that adds no data. *)
Lemma loop_dataReceived budget self :
  (pending self < budget)%nat ->
  loop decode to_int budget self = dataReceived decode to_int self [].
Proof.
  intros P. rewrite dataReceived_more. unfold more. rewrite app_nil_r.
  replace (set_buffer self (_buffer self)) with self by (destruct self; reflexivity).
  apply loop_budget; [exact P|apply budget_for_enough].
Qed.

Lemma passes_trans self evs1 mid evs2 self' :
  passes decode to_int self evs1 mid ->
  passes decode to_int mid evs2 self' ->
  passes decode to_int self (evs1 ++ evs2) self'.
Proof.
  induction 1 as [self|self r evs mid B E O P IH]; intros Q; [exact Q|].
  rewrite <- app_assoc. eapply passes_next; eauto.
Qed.

Lemma passes_one self r :
  _buffer self <> [] ->
  body decode to_int self = (Continue, r) ->
  out r = Normal ->
  passes decode to_int self (fired r) (final r).
Proof.
  intros B E O. rewrite <- (app_nil_r (fired r)).
  eapply passes_next; eauto. apply passes_none.
Qed.

(** A call that makes the passes from [self] with the data added goes on
    from where they lead as a call that adds no data. *)
Lemma dataReceived_passes self data evs self' :
  passes decode to_int (more self data) evs self' ->
  dataReceived decode to_int self data =
  prepend evs (dataReceived decode to_int self' []).
Proof.
  intros P. rewrite dataReceived_more.
  destruct (loop_passes decode to_int _ _ _ P (budget_for (more self data))
                        (budget_for_enough _)) as (budget' & L & H).
  rewrite H. cbv zeta. rewrite (loop_dataReceived budget' self' L). reflexivity.
Qed.

Lemma dataReceived_nothing self :
  _buffer self = [] -> dataReceived decode to_int self [] = ok self.
Proof.
  intros B. rewrite dataReceived_more. unfold more. rewrite B.
  destruct self as [buffer bl dc st q]. cbn in *. subst buffer. reflexivity.
Qed.

End LoopFacts.

(** ** Stacks that only collect *)

Lemma routed_collecting stack element stack' top :
  routed stack element stack' top -> collecting stack -> collecting stack'.
Proof.
  induction 1 as [element|remaining replies below element N
                 |remaining replies below element stack' top E R IH]; intros C.
  - exact C.
  - inversion C; subst. constructor; [discriminate|assumption].
  - inversion C; subst. apply IH. assumption.
Qed.

Lemma provide_normal self reply :
  out (provide self reply) = Normal /\
  _multi_bulk_stack (final (provide self reply)) = _multi_bulk_stack self.
Proof. unfold provide. destruct (_request_queue self); split; reflexivity. Qed.

(** On a stack that only collects, completing a reply ends normally and
    leaves a stack that only collects. *)
Lemma responseReceived_collecting self reply :
  collecting (_multi_bulk_stack self) ->
  out (responseReceived self reply) = Normal /\
  collecting (_multi_bulk_stack (final (responseReceived self reply))).
Proof.
  intros C. destruct (responseReceived_routed self reply C) as (stack' & top & R & H).
  rewrite H. pose proof (routed_collecting _ _ _ _ R C) as C'.
  destruct top as [v|].
  - destruct (provide_normal (set_stack self stack') v) as [O S].
    split; [exact O|]. rewrite S. exact C'.
  - split; [reflexivity|exact C'].
Qed.

(** Completing an element on an open frame: the frame takes it, and a frame
    it fills is completed in turn. *)
Lemma responseReceived_frame self remaining replies below element :
  _multi_bulk_stack self = (remaining, Some replies) :: below ->
  responseReceived self element =
  if remaining - 1 =? 0
  then responseReceived (set_stack self below) (VList (replies ++ [element]))
  else ok (set_stack self ((remaining - 1, Some (replies ++ [element])) :: below)).
Proof.
  intros S. unfold responseReceived at 1. unfold handleMultiBulkElement.
  rewrite S. cbn [handleMultiBulkElement_on].
  destruct (remaining - 1 =? 0); [|reflexivity].
  unfold responseReceived, handleMultiBulkElement.
  cbn [set_stack _multi_bulk_stack].
  destruct below; reflexivity.
Qed.

(** ** Steady passes *)

Section SteadyFacts.

Variable decode : bytes -> option string.
Variable to_int : string -> option Z.

Lemma steady_passes_passes self evs self' :
  steady_passes decode to_int self evs self' ->
  passes decode to_int self evs self'.
Proof.
  induction 1 as [self|self r evs self' N B E O P IH].
  - apply passes_none.
  - eapply passes_next; eassumption.
Qed.

Lemma steady_trans self evs1 mid evs2 self' :
  steady_passes decode to_int self evs1 mid ->
  steady_passes decode to_int mid evs2 self' ->
  steady_passes decode to_int self (evs1 ++ evs2) self'.
Proof.
  induction 1 as [self|self r evs mid N B E O P IH]; intros Q; [exact Q|].
  rewrite <- app_assoc. eapply steady_next; eauto.
Qed.

Lemma steady_one self r :
  steady self ->
  _buffer self <> [] ->
  body decode to_int self = (Continue, r) ->
  out r = Normal ->
  steady_passes decode to_int self (fired r) (final r).
Proof.
  intros N B E O. rewrite <- (app_nil_r (fired r)).
  eapply steady_next; eauto. apply steady_none.
Qed.

Lemma steady_idle self : _bulk_length self = None -> steady self.
Proof. unfold steady. intros ->. exact I. Qed.

End SteadyFacts.

(** ** Replies taken off the wire *)

Lemma reply_nested_ind (P : reply -> Prop) :
  P RNull ->
  (forall n, P (RInteger n)) ->
  (forall text, P (RStatus text)) ->
  (forall data, P (RBulk data)) ->
  (forall items, Forall P items -> P (RArray items)) ->
  forall r, P r.
Proof.
  intros HN HI HS HB HA. fix IH 1.
  intros [|n|text|data|items]; [apply HN|apply HI|apply HS|apply HB|].
  apply HA. induction items as [|x items IHitems]; constructor.
  - apply IH.
  - exact IHitems.
Qed.

Lemma set_bulk_length_none self :
  _bulk_length self = None -> set_bulk_length self None = self.
Proof. destruct self; cbn; intros ->; reflexivity. Qed.

Section Wire.

Variable decode : bytes -> option string.
Variable to_int : string -> option Z.

(** The pass over a terminated line hands its text to [dispatch]. *)
Lemma line_pass self reply_type text rest data :
  _bulk_length self = None ->
  _buffer self = (reply_type :: text) ++ SYM_CRLF ++ rest ->
  split_crlf (reply_type :: text) = None ->
  decode text = Some data ->
  body decode to_int self = dispatch to_int (set_buffer self rest) reply_type data.
Proof.
  intros BL B L D. unfold body. rewrite BL, B.
  rewrite (split_crlf_first _ rest L). cbv iota. rewrite D. reflexivity.
Qed.

Lemma dispatch_integer self data n :
  to_int data = Some n ->
  dispatch to_int self ":" data = (Continue, responseReceived self (VInt n)).
Proof.
  intros H. unfold dispatch, integerReceived, responseReceived.
  change (Byte.eqb ":" "-") with false. change (Byte.eqb ":" ":") with true.
  cbv iota. rewrite H. destruct (_multi_bulk_stack self); reflexivity.
Qed.

Lemma dispatch_status self data :
  dispatch to_int self "+" data =
  (Continue,
   responseReceived self (if String.eqb data "none" then VNone else VText data)).
Proof. reflexivity. Qed.

Lemma dispatch_null self data :
  to_int data = Some (-1) ->
  _bulk_length self = None ->
  dispatch to_int self "$" data = (Continue, responseReceived self VNone).
Proof.
  intros H BL. unfold dispatch, bulkDataReceived.
  change (Byte.eqb "$" "-") with false. change (Byte.eqb "$" ":") with false.
  change (Byte.eqb "$" "+") with false. change (Byte.eqb "$" "$") with true.
  cbv iota. rewrite H. cbn [Z.eqb Pos.eqb].
  replace (set_bulk_length (set_bulk_length self (Some (-1))) None) with self
    by (destruct self; cbn in *; subst; reflexivity).
  reflexivity.
Qed.

Lemma dispatch_length self data n :
  to_int data = Some n ->
  n <> -1 ->
  dispatch to_int self "$" data = (Continue, ok (set_bulk_length self (Some n))).
Proof.
  intros H N. unfold dispatch.
  change (Byte.eqb "$" "-") with false. change (Byte.eqb "$" ":") with false.
  change (Byte.eqb "$" "+") with false. change (Byte.eqb "$" "$") with true.
  cbv iota. rewrite H. apply Z.eqb_neq in N. rewrite N. reflexivity.
Qed.

Lemma dispatch_empty self data :
  to_int data = Some 0 ->
  dispatch to_int self "*" data = (Continue, responseReceived self (VList [])).
Proof.
  intros H. rewrite <- (multiBulkDataReceived_pushed self 0 (Some [])).
  unfold dispatch.
  change (Byte.eqb "*" "-") with false. change (Byte.eqb "*" ":") with false.
  change (Byte.eqb "*" "+") with false. change (Byte.eqb "*" "$") with false.
  change (Byte.eqb "*" "*") with true.
  cbv iota. rewrite H. reflexivity.
Qed.

Lemma dispatch_open self data n :
  to_int data = Some n ->
  n <> -1 -> n <> 0 ->
  dispatch to_int self "*" data =
  (Continue, ok (set_stack self ((n, Some []) :: _multi_bulk_stack self))).
Proof.
  intros H N1 N0. unfold dispatch.
  change (Byte.eqb "*" "-") with false. change (Byte.eqb "*" ":") with false.
  change (Byte.eqb "*" "+") with false. change (Byte.eqb "*" "$") with false.
  change (Byte.eqb "*" "*") with true.
  cbv iota. rewrite H. apply Z.eqb_neq in N1, N0. rewrite N1, N0. reflexivity.
Qed.

(** The pass that finds the awaited bulk data in the buffer. *)
Lemma bulk_pass self data rest text :
  _bulk_length self = Some (len data) ->
  _buffer self = data ++ SYM_CRLF ++ rest ->
  decode data = Some text ->
  body decode to_int self =
  (Continue,
   responseReceived (set_bulk_length (set_buffer self rest) None) (VText text)).
Proof.
  intros BL B D. unfold body, bulkDataReceived. rewrite BL, B.
  replace (len (data ++ SYM_CRLF ++ rest) <? len data + 2) with false.
  2:{ symmetry. apply Z.ltb_ge. unfold len. rewrite !length_app. cbn. lia. }
  replace (slice_to (data ++ SYM_CRLF ++ rest) (len data)) with data.
  2:{ unfold slice_to, len. replace (0 <=? Z.of_nat (List.length data)) with true
        by (symmetry; apply Z.leb_le; lia).
      rewrite Nat2Z.id, firstn_app, Nat.sub_diag, firstn_all. cbn. 
      rewrite app_nil_r. reflexivity. }
  replace (slice_from (data ++ SYM_CRLF ++ rest) (len data + 2)) with rest.
  2:{ unfold slice_from, len.
      replace (0 <=? Z.of_nat (List.length data) + 2) with true
        by (symmetry; apply Z.leb_le; lia).
      replace (Z.to_nat (Z.of_nat (List.length data) + 2))
        with (List.length data + 2)%nat by lia.
      rewrite skipn_app, skipn_all2 by lia.
      replace (List.length data + 2 - List.length data)%nat with 2%nat by lia.
      reflexivity. }
  rewrite D. reflexivity.
Qed.

End Wire.

Section WireDecoding.

Variable decode : bytes -> option string.
Variable to_int : string -> option Z.

Lemma well_formed_array items :
  well_formed decode to_int (RArray items) ->
  reads_int decode to_int (len items) /\
  Forall (well_formed decode to_int) items.
Proof.
  intros [N S]. cbn [numbers status_lines] in N, S.
  inversion N as [|n l Hn Hl]; subst. split; [exact Hn|].
  rewrite Forall_flat_map in Hl, S.
  rewrite Forall_forall in *. intros r I. split; auto.
Qed.

Lemma all_of_cons {A} (x : option A) l ys :
  all_of (x :: l) = Some ys ->
  exists y ys', x = Some y /\ all_of l = Some ys' /\ ys = y :: ys'.
Proof.
  cbn. destruct x as [y|]; [|discriminate].
  destruct (all_of l) as [ys'|]; [|discriminate].
  cbn. intros H. inversion H. eauto.
Qed.

Lemma line_shape (c : byte) (text rest : bytes) :
  (c :: text ++ SYM_CRLF) ++ rest = (c :: text) ++ SYM_CRLF ++ rest.
Proof. cbn [app]. rewrite <- app_assoc. reflexivity. Qed.

Lemma taken_normal self rest v :
  collecting (_multi_bulk_stack self) -> out (taken self rest v) = Normal.
Proof.
  intros C. apply (responseReceived_collecting (set_buffer self rest) v C).
Qed.

Lemma takes_null : takes decode to_int RNull.
Proof.
  intros self rest v B BL C V [N _]. cbn in V. inversion V; subst v.
  cbn [numbers] in N. inversion N as [|n l [D I] _]; subst.
  cbn [wire] in B. change (SYM_DOLLAR ++ b (str (-1)) ++ SYM_CRLF)
    with ("$"%byte :: b (str (-1)) ++ SYM_CRLF) in B.
  rewrite line_shape in B.
  assert (E : body decode to_int self = (Continue, taken self rest VNone)).
  { rewrite (line_pass decode to_int self _ _ rest _ BL B
               (numbered_line_plain "$"%byte (-1) ltac:(discriminate)) D).
    apply dispatch_null; [exact I|exact BL]. }
  apply steady_one;
    [apply steady_idle; exact BL|rewrite B; discriminate|exact E
    |apply taken_normal; exact C].
Qed.

Lemma takes_integer n : takes decode to_int (RInteger n).
Proof.
  intros self rest v B BL C V [N _]. cbn in V. inversion V; subst v.
  cbn [numbers] in N. inversion N as [|n' l [D I] _]; subst.
  cbn [wire] in B. change (b ":" ++ b (str n) ++ SYM_CRLF)
    with (":"%byte :: b (str n) ++ SYM_CRLF) in B.
  rewrite line_shape in B.
  assert (E : body decode to_int self = (Continue, taken self rest (VInt n))).
  { rewrite (line_pass decode to_int self _ _ rest _ BL B
               (numbered_line_plain ":"%byte n ltac:(discriminate)) D).
    apply dispatch_integer. exact I. }
  apply steady_one;
    [apply steady_idle; exact BL|rewrite B; discriminate|exact E
    |apply taken_normal; exact C].
Qed.

Lemma takes_status text : takes decode to_int (RStatus text).
Proof.
  intros self rest v B BL C V [_ S]. cbn [value_of] in V.
  destruct (decode text) as [data|] eqn:D; [|discriminate].
  cbn in V. inversion V; subst v.
  cbn [status_lines] in S. inversion S as [|t l L _]; subst.
  cbn [wire] in B. change (b "+" ++ text ++ SYM_CRLF)
    with ("+"%byte :: text ++ SYM_CRLF) in B.
  rewrite line_shape in B.
  assert (E : body decode to_int self =
              (Continue,
               taken self rest (if String.eqb data "none" then VNone else VText data))).
  { rewrite (line_pass decode to_int self _ _ rest _ BL B
               (split_crlf_prefixed "+"%byte text ltac:(discriminate) L) D).
    apply dispatch_status. }
  apply steady_one;
    [apply steady_idle; exact BL|rewrite B; discriminate|exact E
    |apply taken_normal; exact C].
Qed.

Lemma takes_bulk data : takes decode to_int (RBulk data).
Proof.
  intros self rest v B BL C V [N _]. cbn [value_of] in V.
  destruct (decode data) as [text|] eqn:D; [|discriminate].
  cbn in V. inversion V; subst v.
  cbn [numbers] in N. inversion N as [|n l [DL I] _]; subst.
  cbn [wire] in B. unfold bulk_of in B.
  change (SYM_DOLLAR ++ b (str (len data)) ++ SYM_CRLF ++ data ++ SYM_CRLF)
    with ("$"%byte :: b (str (len data)) ++ SYM_CRLF ++ data ++ SYM_CRLF) in B.
  assert (B' : _buffer self =
               ("$"%byte :: b (str (len data))) ++ SYM_CRLF ++
               (data ++ SYM_CRLF ++ rest)).
  { rewrite B. cbn [app]. rewrite <- !app_assoc. reflexivity. }
  set (waiting := set_bulk_length (set_buffer self (data ++ SYM_CRLF ++ rest))
                                  (Some (len data))).
  assert (E1 : body decode to_int self = (Continue, ok waiting)).
  { rewrite (line_pass decode to_int self _ _ _ _ BL B'
               (numbered_line_plain "$"%byte (len data) ltac:(discriminate)) DL).
    apply dispatch_length; [exact I|unfold len; lia]. }
  assert (E2 : body decode to_int waiting = (Continue, taken self rest (VText text))).
  { rewrite (bulk_pass decode to_int waiting data rest text eq_refl eq_refl D).
    unfold taken, waiting. f_equal. f_equal.
    destruct self; cbn in *; subst; reflexivity. }
  change (fired (taken self rest (VText text)))
    with (fired (ok waiting) ++ fired (taken self rest (VText text))).
  eapply steady_next;
    [apply steady_idle; exact BL|rewrite B; discriminate|exact E1|reflexivity|].
  apply steady_one; [|  |exact E2|apply taken_normal; exact C].
  - unfold steady, waiting. cbn. unfold len. lia.
  - cbn. destruct data; discriminate.
Qed.

(** The elements of an open frame, one after the other; the last one fills
    the frame. *)
Lemma takes_items items :
  Forall (takes decode to_int) items ->
  forall self rest replies below vs,
    items <> [] ->
    _buffer self = flat_map wire items ++ rest ->
    _bulk_length self = None ->
    _multi_bulk_stack self = (len items, Some replies) :: below ->
    collecting below ->
    all_of (map (value_of decode) items) = Some vs ->
    Forall (well_formed decode to_int) items ->
    let res := taken (set_stack self below) rest (VList (replies ++ vs)) in
    steady_passes decode to_int self (fired res) (final res).
Proof.
  induction 1 as [|x items Tx Titems IH];
    intros self rest replies below vs NE B BL S C V W; [contradiction|].
  cbn [map] in V. apply all_of_cons in V. destruct V as (vx & vs' & Vx & Vs & ->).
  inversion W as [|x' l Wx Witems]; subst.
  cbn [flat_map] in B. rewrite <- app_assoc in B.
  assert (Cs : collecting (_multi_bulk_stack self)).
  { rewrite S. constructor; [discriminate|exact C]. }
  pose proof (Tx self (flat_map wire items ++ rest) vx B BL Cs Vx Wx) as Px.
  unfold taken in Px.
  rewrite (responseReceived_frame (set_buffer self (flat_map wire items ++ rest))
             (len (x :: items)) replies below vx S) in Px.
  destruct items as [|y items'].
  - cbn in Vs. inversion Vs; subst vs'.
    change (len [x] - 1 =? 0) with true in Px. cbv iota in Px.
    cbn [flat_map app] in Px. exact Px.
  - replace (len (x :: y :: items') - 1) with (len (y :: items')) in Px
      by (unfold len; cbn [List.length]; lia).
    replace (len (y :: items') =? 0) with false in Px
      by (symmetry; apply Z.eqb_neq; unfold len; cbn [List.length]; lia).
    set (next := set_stack (set_buffer self (flat_map wire (y :: items') ++ rest))
                           ((len (y :: items'), Some (replies ++ [vx])) :: below)) in *.
    pose proof (IH next rest (replies ++ [vx]) below vs' ltac:(discriminate)
                  eq_refl BL eq_refl C Vs Witems) as Pnext.
    cbv zeta in Pnext. rewrite <- app_assoc in Pnext. cbn [app] in Pnext.
    exact (steady_trans decode to_int _ _ _ _ _ Px Pnext).
Qed.

Lemma takes_array items :
  Forall (takes decode to_int) items -> takes decode to_int (RArray items).
Proof.
  intros T self rest v B BL C V W.
  apply well_formed_array in W. destruct W as [[D I] W].
  cbn [value_of] in V.
  destruct (all_of (map (value_of decode) items)) as [vs|] eqn:Vs; [|discriminate].
  cbn in V. inversion V; subst v.
  cbn [wire] in B.
  change (SYM_STAR ++ b (str (len items)) ++ SYM_CRLF ++ flat_map wire items)
    with ("*"%byte :: b (str (len items)) ++ SYM_CRLF ++ flat_map wire items) in B.
  assert (B' : _buffer self =
               ("*"%byte :: b (str (len items))) ++ SYM_CRLF ++
               (flat_map wire items ++ rest)).
  { rewrite B. cbn [app]. rewrite <- !app_assoc. reflexivity. }
  pose proof (line_pass decode to_int self _ _ _ _ BL B'
                (numbered_line_plain "*"%byte (len items) ltac:(discriminate)) D) as E.
  destruct items as [|x items'].
  - cbn in Vs. inversion Vs; subst vs.
    rewrite (dispatch_empty to_int _ _ I) in E.
    apply steady_one;
    [apply steady_idle; exact BL|rewrite B; discriminate|exact E
    |apply taken_normal; exact C].
  - rewrite (dispatch_open to_int _ _ _ I) in E;
      [|unfold len; lia|unfold len; cbn [List.length]; lia].
    set (opened := set_stack (set_buffer self (flat_map wire (x :: items') ++ rest))
                             ((len (x :: items'), Some []) :: _multi_bulk_stack self)) in *.
    pose proof (takes_items (x :: items') T opened rest [] (_multi_bulk_stack self) vs
                  ltac:(discriminate) eq_refl BL eq_refl C Vs W) as P.
    cbv zeta in P. cbn [app] in P.
    replace (set_stack opened (_multi_bulk_stack self))
      with (set_buffer self (flat_map wire (x :: items') ++ rest)) in P
      by (destruct self; reflexivity).
    change (fired (taken self rest (VList vs)))
      with (fired (ok opened) ++ fired (taken self rest (VList vs))).
    eapply steady_next;
      [apply steady_idle; exact BL|rewrite B; discriminate|exact E|reflexivity|].
    exact P.
Qed.

Lemma takes_every r : takes decode to_int r.
Proof.
  induction r using reply_nested_ind;
    auto using takes_null, takes_integer, takes_status, takes_bulk, takes_array.
Qed.

End WireDecoding.

(** ** Whole replies *)

Section WholeReplies.

Variable decode : bytes -> option string.
Variable to_int : string -> option Z.

Lemma pipeline_passes rs :
  forall self vs ds waiting,
    _buffer self = flat_map wire rs ->
    _bulk_length self = None ->
    _multi_bulk_stack self = [] ->
    all_of (map (value_of decode) rs) = Some vs ->
    Forall (well_formed decode to_int) rs ->
    List.length ds = List.length rs ->
    _request_queue self = ds ++ waiting ->
    steady_passes decode to_int self (combine ds (map callback vs))
                  (set_queue (set_buffer self []) waiting).
Proof.
  induction rs as [|r rs IH]; intros self vs ds waiting B BL S V W L Q.
  - destruct ds; [|discriminate]. cbn in V. inversion V; subst vs.
    replace (set_queue (set_buffer self []) waiting) with self
      by (destruct self; cbn in *; subst; reflexivity).
    apply steady_none.
  - destruct ds as [|d ds]; [discriminate|].
    cbn [map] in V. apply all_of_cons in V. destruct V as (v & vs' & Vr & Vs & ->).
    inversion W as [|r' l Wr Wrs]; subst.
    cbn [flat_map] in B.
    assert (C : collecting (_multi_bulk_stack self)) by (rewrite S; constructor).
    pose proof (takes_every decode to_int r self (flat_map wire rs) v B BL C Vr Wr) as P.
    unfold taken, responseReceived, provide in P.
    cbn [set_buffer _multi_bulk_stack _request_queue] in P. rewrite S, Q in P.
    cbn [app] in P. cbn [fired final] in P.
    set (next := set_queue (set_buffer self (flat_map wire rs)) (ds ++ waiting)) in *.
    pose proof (IH next vs' ds waiting eq_refl BL S Vs Wrs
                   ltac:(cbn in L; lia) eq_refl) as Pnext.
    exact (steady_trans decode to_int _ _ _ _ _ P Pnext).
Qed.

End WholeReplies.

Lemma whole_reply_taken decode to_int self data r v :
  _buffer self ++ data = wire r ->
  _bulk_length self = None ->
  collecting (_multi_bulk_stack self) ->
  value_of decode r = Some v ->
  well_formed decode to_int r ->
  dataReceived decode to_int self data = responseReceived (set_buffer self []) v.
Proof.
  intros B BL C V W.
  assert (B' : _buffer (more self data) = wire r ++ [])
    by (rewrite app_nil_r; exact B).
  pose proof (steady_passes_passes decode to_int _ _ _
                (takes_every decode to_int r (more self data) [] v B' BL C V W)) as P.
  unfold taken in P.
  change (set_buffer (more self data) []) with (set_buffer self []) in P.
  rewrite (dataReceived_passes decode to_int self data _ _ P).
  destruct (responseReceived_collecting (set_buffer self []) v C) as [O _].
  destruct (completes_responseReceived (set_buffer self []) v) as [KB _ _ _ _].
  rewrite dataReceived_nothing by exact KB.
  destruct (responseReceived (set_buffer self []) v) as [o s evs].
  cbn in *. subst o. unfold prepend. cbn. rewrite app_nil_r. reflexivity.
Qed.

(** The decoder takes a whole reply in one call, however deep its arrays
    are nested and whatever frames are open: the call comes to completing
    the value of the reply.  A status line [none] stands for [None]; bulk
    data [none] is text. *)
Theorem reply_decoded decode to_int self data r v :
  _buffer self ++ data = wire r ->
  _bulk_length self = None ->
  collecting (_multi_bulk_stack self) ->
  value_of decode r = Some v ->
  well_formed decode to_int r ->
  dataReceived decode to_int self data = responseReceived (set_buffer self []) v.
Proof. exact (whole_reply_taken decode to_int self data r v). Qed.

Lemma reply_decoded_witness :
  let r := RArray [RInteger 7;
                   RArray [RBulk (b "a"); RArray [RNull; RStatus (b "OK")]];
                   RArray []] in
  let v := VList [VInt 7;
                  VList [VText "a"; VList [VNone; VText "OK"]];
                  VList []] in
  (_buffer (awaiting [0%nat]) ++ wire r = wire r /\
   _bulk_length (awaiting [0%nat]) = None /\
   collecting (_multi_bulk_stack (awaiting [0%nat])) /\
   value_of ascii_decode r = Some v /\
   well_formed ascii_decode decimal_int r) /\
  feed (awaiting [0%nat]) (wire r) =
    mkResult Normal (awaiting []) [(0%nat, callback v)].
Proof.
  intros r v.
  assert (H1 : _buffer (awaiting [0%nat]) ++ wire r = wire r) by reflexivity.
  assert (H2 : _bulk_length (awaiting [0%nat]) = None) by reflexivity.
  assert (H3 : collecting (_multi_bulk_stack (awaiting [0%nat]))) by constructor.
  assert (H4 : value_of ascii_decode r = Some v) by reflexivity.
  assert (H5 : well_formed ascii_decode decimal_int r).
  { split; cbn; repeat constructor. }
  split; [exact (conj H1 (conj H2 (conj H3 (conj H4 H5))))|].
  exact (reply_decoded ascii_decode decimal_int (awaiting [0%nat]) (wire r) r v
                       H1 H2 H3 H4 H5).
Defined.

(** Pipelined replies: as many whole replies as requests waiting for them,
    in one chunk, complete those requests oldest first, each with the value
    of its reply, and leave the later requests waiting. *)
Theorem pipelined_replies_resolved decode to_int self rs vs ds waiting :
  _buffer self = [] ->
  _bulk_length self = None ->
  _multi_bulk_stack self = [] ->
  _request_queue self = ds ++ waiting ->
  List.length ds = List.length rs ->
  all_of (map (value_of decode) rs) = Some vs ->
  Forall (well_formed decode to_int) rs ->
  dataReceived decode to_int self (flat_map wire rs) =
  mkResult Normal (set_queue self waiting) (combine ds (map callback vs)).
Proof.
  intros B BL S Q L V W.
  assert (B' : _buffer (more self (flat_map wire rs)) = flat_map wire rs)
    by (cbn; rewrite B; reflexivity).
  pose proof (steady_passes_passes decode to_int _ _ _
                (pipeline_passes decode to_int rs (more self (flat_map wire rs))
                   vs ds waiting B' BL S V W L Q)) as P.
  rewrite (dataReceived_passes decode to_int self _ _ _ P).
  rewrite dataReceived_nothing by reflexivity.
  unfold prepend. cbn. rewrite app_nil_r. f_equal.
  destruct self; cbn in *; subst; reflexivity.
Qed.

Lemma pipelined_replies_resolved_witness :
  let rs := [RStatus (b "OK"); RArray [RBulk (b "a"); RBulk (b "b")]; RInteger (-3)] in
  let vs := [VText "OK"; VList [VText "a"; VText "b"]; VInt (-3)] in
  let self := awaiting [0%nat; 1%nat; 2%nat; 3%nat] in
  (_buffer self = [] /\ _bulk_length self = None /\ _multi_bulk_stack self = [] /\
   _request_queue self = [0%nat; 1%nat; 2%nat] ++ [3%nat] /\
   List.length [0%nat; 1%nat; 2%nat] = List.length rs /\
   all_of (map (value_of ascii_decode) rs) = Some vs /\
   Forall (well_formed ascii_decode decimal_int) rs) /\
  feed self (flat_map wire rs) =
    mkResult Normal (awaiting [3%nat])
             [(0%nat, callback (VText "OK"));
              (1%nat, callback (VList [VText "a"; VText "b"]));
              (2%nat, callback (VInt (-3)))].
Proof.
  intros rs vs self.
  assert (H1 : _buffer self = []) by reflexivity.
  assert (H2 : _bulk_length self = None) by reflexivity.
  assert (H3 : _multi_bulk_stack self = []) by reflexivity.
  assert (H4 : _request_queue self = [0%nat; 1%nat; 2%nat] ++ [3%nat]) by reflexivity.
  assert (H5 : List.length [0%nat; 1%nat; 2%nat] = List.length rs) by reflexivity.
  assert (H6 : all_of (map (value_of ascii_decode) rs) = Some vs) by reflexivity.
  assert (H7 : Forall (well_formed ascii_decode decimal_int) rs).
  { repeat constructor. }
  split; [exact (conj H1 (conj H2 (conj H3 (conj H4 (conj H5 (conj H6 H7))))))|].
  exact (pipelined_replies_resolved ascii_decode decimal_int self rs vs
           [0%nat; 1%nat; 2%nat] [3%nat] H1 H2 H3 H4 H5 H6 H7).
Defined.

(** ** A request read back *)

Lemma canonical_encoding_wire args :
  canonical_encoding args = wire (RArray (map RBulk args)).
Proof.
  unfold canonical_encoding. cbn [wire]. unfold len. rewrite length_map.
  do 3 f_equal. induction args as [|a args IH]; cbn; [reflexivity|].
  rewrite IH. reflexivity.
Qed.

Lemma value_of_bulks decode args texts :
  all_of (map decode args) = Some texts ->
  value_of decode (RArray (map RBulk args)) = Some (VList (map VText texts)).
Proof.
  intros H. cbn [value_of].
  replace (all_of (map (value_of decode) (map RBulk args)))
    with (Some (map VText texts)); [reflexivity|].
  revert texts H. induction args as [|a args IH]; intros texts H.
  - cbn in H. inversion H. reflexivity.
  - cbn [map] in H. apply all_of_cons in H. destruct H as (t & ts & D & A & ->).
    cbn. rewrite D. cbn. rewrite <- (IH ts A). reflexivity.
Qed.

Lemma well_formed_bulks decode to_int args :
  Forall (reads_int decode to_int) (len args :: map len args) ->
  well_formed decode to_int (RArray (map RBulk args)).
Proof.
  intros F. split.
  - cbn [numbers]. unfold len at 1. rewrite length_map.
    inversion F as [|n l Hn Hl]; subst. constructor; [exact Hn|].
    clear Hn F. induction args as [|a args IH]; cbn; [constructor|].
    inversion Hl; subst. constructor; auto.
  - cbn [status_lines]. clear F.
    induction args as [|a args IH]; cbn; [constructor|exact IH].
Qed.

(** What [_pack] writes is a reply the decoder takes: fed the chunks of a
    request laid end to end, it completes the oldest request with the list
    of the request's words, name tokens first. *)
Theorem request_read_back decode to_int encode_text self command args
        chunks words texts d waiting :
  _pack encode_text command args = Some chunks ->
  encode_all encode_text (pack_args command args) = Some words ->
  all_of (map decode words) = Some texts ->
  Forall (reads_int decode to_int) (len words :: map len words) ->
  _buffer self = [] ->
  _bulk_length self = None ->
  _multi_bulk_stack self = [] ->
  _request_queue self = d :: waiting ->
  dataReceived decode to_int self (List.concat chunks) =
  mkResult Normal (set_queue self waiting) [(d, callback (VList (map VText texts)))].
Proof.
  intros P E T F B BL S Q.
  assert (W : List.concat chunks = wire (RArray (map RBulk words))).
  { rewrite <- canonical_encoding_wire.
    pose proof (pack_loop_concat encode_text (pack_args command args)
                  (SYM_STAR ++ b (str (len (pack_args command args))) ++ SYM_CRLF) [])
      as H.
    unfold _pack in P. rewrite P, E in H. cbn [option_map] in H.
    inversion H as [H']. clear H. rewrite H'.
    unfold canonical_encoding, len.
    rewrite (encode_all_length _ _ _ E). cbn [app]. rewrite <- app_assoc.
    reflexivity. }
  rewrite W.
  rewrite (whole_reply_taken decode to_int self _ (RArray (map RBulk words))
             (VList (map VText texts))).
  - unfold responseReceived, provide. cbn. rewrite S, Q. f_equal.
    destruct self; cbn in *; subst; reflexivity.
  - rewrite B. reflexivity.
  - exact BL.
  - rewrite S. constructor.
  - apply value_of_bulks. exact T.
  - apply well_formed_bulks. exact F.
Qed.

Lemma request_read_back_witness :
  let self := awaiting [5%nat; 6%nat] in
  let args := [Unicode "maxmemory"; Integer 42] in
  let words := [b "CONFIG"; b "SET"; b "maxmemory"; b "42"] in
  exists chunks,
    (_pack ascii_encode "CONFIG SET" args = Some chunks /\
     encode_all ascii_encode (pack_args "CONFIG SET" args) = Some words /\
     all_of (map ascii_decode words) =
       Some ["CONFIG"; "SET"; "maxmemory"; "42"]%string /\
     Forall (reads_int ascii_decode decimal_int) (len words :: map len words)) /\
    feed self (List.concat chunks) =
      mkResult Normal (awaiting [6%nat])
               [(5%nat, callback (VList [VText "CONFIG"; VText "SET";
                                         VText "maxmemory"; VText "42"]))].
Proof.
  intros self args words.
  destruct (_pack ascii_encode "CONFIG SET" args) as [chunks|] eqn:P;
    [|vm_compute in P; discriminate].
  exists chunks.
  assert (E : encode_all ascii_encode (pack_args "CONFIG SET" args) = Some words)
    by reflexivity.
  assert (T : all_of (map ascii_decode words) =
              Some ["CONFIG"; "SET"; "maxmemory"; "42"]%string) by reflexivity.
  assert (F : Forall (reads_int ascii_decode decimal_int)
                     (len words :: map len words))
    by (repeat constructor).
  split; [exact (conj eq_refl (conj E (conj T F)))|].
  exact (request_read_back ascii_decode decimal_int ascii_encode self
           "CONFIG SET" args chunks words _ 5%nat [6%nat]
           P E T F eq_refl eq_refl eq_refl eq_refl).
Defined.

(** ** Chunks *)

(** The completion methods never look at the buffer. *)
Lemma provide_with_buffer self buffer reply :
  provide (set_buffer self buffer) reply = with_buffer buffer (provide self reply).
Proof. unfold provide. cbn. destruct (_request_queue self); reflexivity. Qed.

Lemma handleMultiBulkElement_on_with_buffer stack :
  forall self buffer element,
    handleMultiBulkElement_on stack (set_buffer self buffer) element =
    with_buffer buffer (handleMultiBulkElement_on stack self element).
Proof.
  induction stack as [|[remaining [replies|]] below IH]; intros self buffer element;
    cbn [handleMultiBulkElement_on]; try reflexivity.
  destruct (remaining - 1 =? 0); [|reflexivity].
  destruct below as [|f below'].
  - apply (provide_with_buffer (set_stack self [])).
  - apply (IH (set_stack self (f :: below'))).
Qed.

Lemma responseReceived_with_buffer self buffer reply :
  responseReceived (set_buffer self buffer) reply =
  with_buffer buffer (responseReceived self reply).
Proof.
  unfold responseReceived, handleMultiBulkElement. cbn [set_buffer _multi_bulk_stack].
  destruct (_multi_bulk_stack self).
  - apply provide_with_buffer.
  - apply handleMultiBulkElement_on_with_buffer.
Qed.

Lemma multiBulkDataReceived_with_buffer self buffer :
  multiBulkDataReceived (set_buffer self buffer) =
  with_buffer buffer (multiBulkDataReceived self).
Proof.
  unfold multiBulkDataReceived, handleCompleteMultiBulkData, handleMultiBulkElement.
  cbn [set_buffer _multi_bulk_stack].
  destruct (_multi_bulk_stack self) as [|[n collected] below]; [reflexivity|].
  destruct below as [|f below'].
  - apply (responseReceived_with_buffer (set_stack self [])).
  - apply (handleMultiBulkElement_on_with_buffer (f :: below')
             (set_stack self (f :: below'))).
Qed.

Lemma errorReceived_with_buffer self buffer data :
  errorReceived (set_buffer self buffer) data =
  with_buffer buffer (errorReceived self data).
Proof. unfold errorReceived. cbn. destruct (_request_queue self); reflexivity. Qed.

Lemma dispatch_with_buffer to_int self buffer reply_type reply_data :
  dispatch to_int (set_buffer self buffer) reply_type reply_data =
  let '(ctl, r) := dispatch to_int self reply_type reply_data in
  (ctl, with_buffer buffer r).
Proof.
  unfold dispatch, integerReceived, singleLineReceived, bulkDataReceived.
  repeat match goal with
         | |- context [if Byte.eqb ?x ?y then _ else _] => destruct (Byte.eqb x y)
         | |- context [match to_int ?d with _ => _ end] => destruct (to_int d)
         | |- context [if ?n =? ?m then _ else _] => destruct (n =? m)
         end;
    cbv beta iota zeta; f_equal;
    try match goal with
        | |- errorReceived _ ?d = with_buffer ?x (errorReceived ?s ?d) =>
            exact (errorReceived_with_buffer s x d)
        | |- responseReceived _ ?v = with_buffer ?x (responseReceived ?s ?v) =>
            exact (responseReceived_with_buffer s x v)
        | |- multiBulkDataReceived _ = with_buffer ?x (multiBulkDataReceived ?s) =>
            exact (multiBulkDataReceived_with_buffer s x)
        | |- ok _ = with_buffer _ (ok _) => reflexivity
        end.
  all: unfold handleMultiBulkElement; cbn [set_buffer _multi_bulk_stack];
    destruct (_multi_bulk_stack self);
    [ apply responseReceived_with_buffer
    | apply handleMultiBulkElement_on_with_buffer ].
Qed.

Lemma split_crlf_more buf line rest data :
  split_crlf buf = Some (line, rest) ->
  split_crlf (buf ++ data) = Some (line, rest ++ data).
Proof.
  revert line rest. induction buf as [|c buf IH]; intros line rest H; [discriminate|].
  destruct buf as [|d buf']; [discriminate|].
  rewrite split_crlf_cons in H.
  change ((c :: d :: buf') ++ data) with (c :: d :: (buf' ++ data)).
  rewrite split_crlf_cons.
  destruct (Byte.eqb c x0d && Byte.eqb d x0a).
  - inversion H; subst. reflexivity.
  - destruct (split_crlf (d :: buf')) as [[l a]|] eqn:S; [|discriminate].
    inversion H; subst.
    change (d :: buf' ++ data) with ((d :: buf') ++ data).
    rewrite (IH _ _ eq_refl). reflexivity.
Qed.

Section Chunks.

Variable decode : bytes -> option string.
Variable to_int : string -> option Z.

(** A pass that goes round again does the same with more data behind what
    it reads, as long as no negative bulk length is awaited. *)
Lemma body_more self r data :
  steady self ->
  body decode to_int self = (Continue, r) ->
  body decode to_int (more self data) =
  (Continue, with_buffer (_buffer (final r) ++ data) r).
Proof.
  unfold steady, body, more. cbn [set_buffer _buffer _bulk_length].
  destruct (_bulk_length self) as [n|] eqn:BL.
  - intros N. destruct (len (_buffer self) <? n + 2) eqn:L; [discriminate|].
    apply Z.ltb_ge in L. unfold len in L.
    replace (len (_buffer self ++ data) <? n + 2) with false
      by (symmetry; apply Z.ltb_ge; unfold len; rewrite length_app; lia).
    replace (slice_to (_buffer self ++ data) n) with (slice_to (_buffer self) n).
    2:{ unfold slice_to. replace (0 <=? n) with true by (symmetry; apply Z.leb_le; lia).
        rewrite firstn_app.
        replace (Z.to_nat n - List.length (_buffer self))%nat with 0%nat by lia.
        cbn. rewrite app_nil_r. reflexivity. }
    replace (slice_from (_buffer self ++ data) (n + 2))
      with (slice_from (_buffer self) (n + 2) ++ data).
    2:{ unfold slice_from.
        replace (0 <=? n + 2) with true by (symmetry; apply Z.leb_le; lia).
        rewrite skipn_app.
        replace (Z.to_nat (n + 2) - List.length (_buffer self))%nat with 0%nat by lia.
        reflexivity. }
    destruct (decode (slice_to (_buffer self) n)) as [text|]; [|discriminate].
    intros H. inversion H; subst r. f_equal.
    unfold bulkDataReceived.
    match goal with
    | |- ?lhs = with_buffer (_buffer (final (responseReceived ?s ?v)) ++ data) _ =>
        destruct (completes_responseReceived s v) as [KB _ _ _ _]; rewrite KB;
          exact (responseReceived_with_buffer s _ v)
    end.
  - intros _. destruct (split_crlf (_buffer self)) as [[line rest]|] eqn:S; [|discriminate].
    rewrite (split_crlf_more _ _ _ data S).
    destruct line as [|reply_type tail].
    + intros H. inversion H; subst r. reflexivity.
    + destruct (decode tail) as [reply_data|]; [|discriminate].
      intros H.
      pose proof (dispatch_with_buffer to_int (set_buffer self rest) (rest ++ data)
                    reply_type reply_data) as W.
      pose proof (dispatch_orderly to_int (set_buffer self rest) reply_type reply_data)
        as O.
      rewrite H in W, O. destruct O as [_ KB]. cbn [set_buffer _buffer] in KB.
      rewrite KB. exact W.
Qed.

Lemma steady_passes_more self evs self' data :
  steady_passes decode to_int self evs self' ->
  passes decode to_int (more self data) evs (more self' data).
Proof.
  induction 1 as [self|self r evs self' N B E O P IH].
  - apply passes_none.
  - apply (passes_next decode to_int (more self data)
                       (with_buffer (_buffer (final r) ++ data) r) evs
                       (more self' data)).
    + unfold more. cbn. destruct (_buffer self); [contradiction|discriminate].
    + apply body_more; assumption.
    + exact O.
    + exact IH.
Qed.

Lemma loop_passes_for self evs self' :
  passes decode to_int self evs self' ->
  loop decode to_int (budget_for self) self =
  prepend evs (loop decode to_int (budget_for self') self').
Proof.
  intros P.
  destruct (loop_passes decode to_int _ _ _ P (budget_for self)
                        (budget_for_enough self)) as (budget' & L & H).
  rewrite H. cbv zeta.
  rewrite (loop_budget decode to_int budget' (budget_for self') self' L
             (budget_for_enough self')).
  reflexivity.
Qed.

Lemma loop_stands self :
  stands decode to_int self ->
  loop decode to_int (budget_for self) self = ok self.
Proof.
  intros [B|E]; unfold budget_for.
  - replace (2 * List.length (_buffer self) + 2)%nat
      with (S (2 * List.length (_buffer self) + 1)) by lia.
    cbn [loop]. rewrite B. reflexivity.
  - replace (2 * List.length (_buffer self) + 2)%nat
      with (S (2 * List.length (_buffer self) + 1)) by lia.
    cbn [loop]. destruct (_buffer self); [reflexivity|]. rewrite E. reflexivity.
Qed.

End Chunks.

(** Where a chunk ends does not matter as long as the call on the first
    chunk makes only passes that go round again, none on a negative bulk
    length, and ends standing still for want of data: feeding the two chunks
    one after the other is feeding them as one. *)
Theorem chunk_boundary_when_waiting decode to_int self first second evs self' :
  steady_passes decode to_int (more self first) evs self' ->
  stands decode to_int self' ->
  dataReceived decode to_int self first = mkResult Normal self' evs /\
  receive decode to_int self [first; second] =
  dataReceived decode to_int self (first ++ second).
Proof.
  intros SP ST.
  assert (R1 : dataReceived decode to_int self first = mkResult Normal self' evs).
  { rewrite dataReceived_more.
    rewrite (loop_passes_for decode to_int _ _ _
               (steady_passes_passes decode to_int _ _ _ SP)).
    rewrite (loop_stands decode to_int self' ST).
    unfold prepend. cbn. rewrite app_nil_r. reflexivity. }
  split; [exact R1|].
  cbn [receive]. rewrite R1. cbn [out final fired].
  assert (W : dataReceived decode to_int self (first ++ second) =
              prepend evs (dataReceived decode to_int self' second)).
  { rewrite !dataReceived_more.
    replace (more self (first ++ second)) with (more (more self first) second)
      by (unfold more; cbn; rewrite app_assoc; reflexivity).
    apply loop_passes_for. apply steady_passes_more. exact SP. }
  rewrite W. unfold prepend.
  destruct (dataReceived decode to_int self' second) as [o s evs'].
  cbn. destruct o; cbn; rewrite ?app_nil_r; reflexivity.
Qed.

Lemma chunk_boundary_when_waiting_witness :
  let self := awaiting [0%nat] in
  let first := b "$5" ++ SYM_CRLF ++ b "hel" in
  let second := b "lo" ++ SYM_CRLF in
  let self' := mkRedisBase (b "hel") (Some 5) false [] [0%nat] in
  (steady_passes ascii_decode decimal_int (more self first) [] self' /\
   stands ascii_decode decimal_int self') /\
  receive ascii_decode decimal_int self [first; second] =
    feed self (first ++ second) /\
  feed self (first ++ second) =
    mkResult Normal (awaiting []) [(0%nat, callback (VText "hello"))].
Proof.
  intros self first second self'.
  assert (SP : steady_passes ascii_decode decimal_int (more self first) [] self').
  { apply (steady_next ascii_decode decimal_int (more self first) (ok self') [] self').
    - exact I.
    - discriminate.
    - reflexivity.
    - reflexivity.
    - apply steady_none. }
  assert (ST : stands ascii_decode decimal_int self') by (right; reflexivity).
  split; [exact (conj SP ST)|].
  split; [|reflexivity].
  exact (proj2 (chunk_boundary_when_waiting ascii_decode decimal_int self
                  first second [] self' SP ST)).
Defined.

(** ** What a call can raise *)

Section Raises.

Variable decode : bytes -> option string.
Variable to_int : string -> option Z.

Lemma errorReceived_expected self data :
  expected self (errorReceived self data).
Proof.
  unfold expected, errorReceived.
  destruct (_request_queue self); cbn; intros C; split; eauto.
Qed.

Lemma responseReceived_expected self reply :
  expected self (responseReceived self reply).
Proof.
  intros C. destruct (responseReceived_collecting self reply C) as [O C'].
  split; [exact C'|left; exact O].
Qed.

Lemma expected_from self self' r :
  _multi_bulk_stack self' = _multi_bulk_stack self ->
  expected self' r -> expected self r.
Proof. intros S E C. apply E. rewrite S. exact C. Qed.

Lemma dispatch_expected self reply_type reply_data :
  expected self (snd (dispatch to_int self reply_type reply_data)).
Proof.
  unfold dispatch, integerReceived, singleLineReceived, bulkDataReceived.
  repeat match goal with
         | |- context [if Byte.eqb ?x ?y then _ else _] => destruct (Byte.eqb x y)
         | |- context [match to_int ?d with _ => _ end] => destruct (to_int d)
         | |- context [if ?n =? ?m then _ else _] => destruct (n =? m)
         end;
    cbn [snd];
    try rewrite multiBulkDataReceived_pushed;
    try match goal with
        | |- expected _ (errorReceived _ _) => apply errorReceived_expected
        | |- expected _ (responseReceived ?s _) =>
            apply (expected_from self s); [reflexivity|apply responseReceived_expected]
        | |- expected _ (ok _) => intros C; split; [|left; reflexivity]
        end.
  - replace (match _multi_bulk_stack self with
             | [] => responseReceived self (VInt z)
             | _ :: _ => handleMultiBulkElement self (VInt z)
             end) with (responseReceived self (VInt z))
      by (unfold responseReceived; destruct (_multi_bulk_stack self); reflexivity).
    apply responseReceived_expected.
  - replace (match _multi_bulk_stack self with
             | [] => responseReceived self (VExc (cannot_convert reply_data))
             | _ :: _ => handleMultiBulkElement self (VExc (cannot_convert reply_data))
             end) with (responseReceived self (VExc (cannot_convert reply_data)))
      by (unfold responseReceived; destruct (_multi_bulk_stack self); reflexivity).
    apply responseReceived_expected.
  - exact C.
  - cbn. constructor; [discriminate|exact C].
  - exact C.
Qed.

Lemma body_expected self :
  expected self (snd (body decode to_int self)).
Proof.
  unfold body, bulkDataReceived.
  destruct (_bulk_length self) as [n|].
  - destruct (len (_buffer self) <? n + 2); cbn [snd].
    + intros C; split; [exact C|left; reflexivity].
    + destruct (decode _); cbn [snd].
      * match goal with
        | |- expected _ (responseReceived ?s _) =>
            apply (expected_from self s); [reflexivity|apply responseReceived_expected]
        end.
      * intros C; split; [exact C|right; left; reflexivity].
  - destruct (split_crlf (_buffer self)) as [[line rest]|]; cbn [snd].
    + destruct line as [|reply_type tail]; cbn [snd].
      * intros C; split; [exact C|left; reflexivity].
      * destruct (decode tail) as [reply_data|]; cbn [snd].
        -- apply (expected_from self (set_buffer self rest)); [reflexivity|].
           apply dispatch_expected.
        -- intros C; split; [exact C|right; left; reflexivity].
    + intros C; split; [exact C|left; reflexivity].
Qed.

Lemma loop_expected budget :
  forall self,
    (pending self < budget)%nat ->
    expected self (loop decode to_int budget self).
Proof.
  induction budget as [|budget IH]; intros self P C; [lia|].
  cbn [loop]. destruct (_buffer self) eqn:B.
  - split; [exact C|left; reflexivity].
  - pose proof (body_expected self C) as E.
    pose proof (body_progress decode to_int self) as G.
    destruct (body decode to_int self) as [ctl r]. cbn [snd] in E.
    destruct E as [C' O].
    destruct (out r) eqn:R.
    + destruct ctl.
      * specialize (G eq_refl).
        destruct (IH (final r) ltac:(lia) C') as [C'' O'']. split; assumption.
      * split; [exact C'|rewrite R; left; reflexivity].
    + split; [exact C'|rewrite R; exact O].
    + split; [exact C'|rewrite R; exact O].
Qed.

Lemma dispatch_raising self reply_type reply_data :
  collecting (_multi_bulk_stack self) ->
  out (snd (dispatch to_int self reply_type reply_data)) = Normal \/
  (reply_type = "-"%byte /\ _request_queue self = [] /\
   snd (dispatch to_int self reply_type reply_data) =
     raise (classify reply_data) self).
Proof.
  intros C.
  assert (N : forall s v, _multi_bulk_stack s = _multi_bulk_stack self ->
                          out (responseReceived s v) = Normal).
  { intros s v S. apply responseReceived_collecting. rewrite S. exact C. }
  unfold dispatch. destruct (Byte.eqb reply_type "-") eqn:E.
  - apply Byte.byte_dec_bl in E. cbn [snd]. unfold errorReceived.
    destruct (_request_queue self); [right; auto|left; reflexivity].
  - left. unfold integerReceived, singleLineReceived, bulkDataReceived.
    repeat match goal with
           | |- context [if Byte.eqb ?x ?y then _ else _] => destruct (Byte.eqb x y)
           | |- context [match to_int ?d with _ => _ end] => destruct (to_int d)
           | |- context [if ?n =? ?m then _ else _] => destruct (n =? m)
           end;
      cbn [snd];
      try rewrite multiBulkDataReceived_pushed;
      try (apply N; reflexivity);
      try reflexivity.
    all: match goal with
         | |- out (match _multi_bulk_stack ?s with
                   | [] => responseReceived ?s ?v
                   | _ :: _ => _
                   end) = Normal =>
             replace (match _multi_bulk_stack s with
                      | [] => responseReceived s v
                      | _ :: _ => handleMultiBulkElement s v
                      end) with (responseReceived s v)
               by (unfold responseReceived; destruct (_multi_bulk_stack s);
                   reflexivity);
             apply N; reflexivity
         end.
Qed.

Lemma body_raising self :
  collecting (_multi_bulk_stack self) ->
  out (snd (body decode to_int self)) = Normal \/
  raising decode self (snd (body decode to_int self)).
Proof.
  intros C. unfold body, bulkDataReceived.
  destruct (_bulk_length self) as [n|] eqn:BL.
  - destruct (len (_buffer self) <? n + 2) eqn:L; [left; reflexivity|].
    apply Z.ltb_ge in L.
    destruct (decode (slice_to (_buffer self) n)) eqn:D; cbn [snd].
    + left. apply responseReceived_collecting. exact C.
    + right. exact (raising_bulk decode self n BL L D).
  - destruct (split_crlf (_buffer self)) as [[line rest]|] eqn:S; [|left; reflexivity].
    destruct line as [|reply_type tail]; [left; reflexivity|].
    destruct (decode tail) as [reply_data|] eqn:D.
    + destruct (dispatch_raising (set_buffer self rest) reply_type reply_data C)
        as [N|(-> & Q & R)]; [left; exact N|].
      right. rewrite R. exact (raising_error decode self tail rest reply_data BL S D Q).
    + right. exact (raising_line decode self reply_type tail rest BL S D).
Qed.

Lemma raising_raised self r : raising decode self r -> out r <> Normal.
Proof. intros R. destruct R; discriminate. Qed.

Lemma loop_raising budget :
  forall self,
    (pending self < budget)%nat ->
    collecting (_multi_bulk_stack self) ->
    out (loop decode to_int budget self) = Normal \/
    exists evs self' r0,
      passes decode to_int self evs self' /\
      raising decode self' r0 /\
      loop decode to_int budget self = prepend evs r0.
Proof.
  induction budget as [|budget IH]; intros self P C; [lia|].
  cbn [loop]. destruct (_buffer self) eqn:B; [left; reflexivity|].
  pose proof (body_expected self C) as E.
  pose proof (body_raising self C) as R.
  pose proof (body_progress decode to_int self) as G.
  destruct (body decode to_int self) as [ctl r] eqn:Bd. cbn [snd] in E, R.
  destruct R as [N|R].
  - rewrite N. destruct ctl; [|left; exact N].
    specialize (G eq_refl). destruct E as [C' _].
    destruct (IH (final r) ltac:(lia) C') as [N'|(evs & self' & r0 & Ps & Rs & L)].
    + left. exact N'.
    + right. exists (fired r ++ evs), self', r0. split; [|split; [exact Rs|]].
      * apply (passes_next decode to_int self r evs self');
          [rewrite B; discriminate|exact Bd|exact N|exact Ps].
      * rewrite L. unfold prepend. cbn. rewrite app_assoc. reflexivity.
  - right. exists [], self, r. split; [apply passes_none|]. split; [exact R|].
    pose proof (raising_raised self r R) as NN.
    replace (prepend [] r) with r by (destruct r; reflexivity).
    destruct (out r); [contradiction| |]; reflexivity.
Qed.

End Raises.

(** From a stack that only collects, [dataReceived] leaves one that only
    collects, and a call that does not end normally made some passes that
    went round again and then one of the three passes that raise: on
    buffered bulk data that does not decode, on a line whose text does not
    decode, or on an error line that found no request queued.  What the call
    fired is what the earlier passes fired; the exception and the protocol
    are those of the raising pass.  Nothing else is ever raised: the pops and
    appends on the stack never fail. *)
Theorem dataReceived_raises_only decode to_int self data :
  collecting (_multi_bulk_stack self) ->
  let r := dataReceived decode to_int self data in
  collecting (_multi_bulk_stack (final r)) /\
  (out r = Normal \/
   exists evs self' r0,
     passes decode to_int (more self data) evs self' /\
     raising decode self' r0 /\
     r = prepend evs r0).
Proof.
  intros C. split.
  - apply (loop_expected decode to_int _ (more self data) (budget_for_enough _) C).
  - apply (loop_raising decode to_int _ (more self data) (budget_for_enough _) C).
Qed.

Lemma dataReceived_raises_only_witness :
  let self := mkRedisBase [] None false [(2, Some [VInt 1])] [] in
  let data := b ":2" ++ SYM_CRLF ++ b "-ERR x" ++ SYM_CRLF in
  collecting (_multi_bulk_stack self) /\
  out (feed self data) = Raised (ResponseError "x") /\
  exists evs self' r0,
    passes ascii_decode decimal_int (more self data) evs self' /\
    raising ascii_decode self' r0 /\
    feed self data = prepend evs r0.
Proof.
  intros self data.
  assert (C : collecting (_multi_bulk_stack self))
    by (repeat constructor; discriminate).
  split; [exact C|]. split; [reflexivity|].
  destruct (proj2 (dataReceived_raises_only ascii_decode decimal_int self data C))
    as [N|H].
  - vm_compute in N. discriminate N.
  - exact H.
Defined.

(** ** Bulk data that does not decode *)

(** Bulk data that fails to decode is never taken off the buffer: the call
    raises with the protocol as it was but for the data added, so the awaited
    length and the offending bytes are still there and every later call
    raises again, firing nothing. *)
Theorem undecodable_bulk_stays decode to_int self n data :
  _bulk_length self = Some n ->
  0 <= n ->
  n + 2 <= len (_buffer self) ->
  decode (slice_to (_buffer self) n) = None ->
  dataReceived decode to_int self data =
    mkResult (Raised UnicodeDecodeError) (more self data) [] /\
  _bulk_length (more self data) = Some n /\
  n + 2 <= len (_buffer (more self data)) /\
  decode (slice_to (_buffer (more self data)) n) = None.
Proof.
  intros BL N L D.
  assert (ST : slice_to (_buffer self ++ data) n = slice_to (_buffer self) n).
  { unfold slice_to, len in *.
    replace (0 <=? n) with true by (symmetry; apply Z.leb_le; lia).
    rewrite firstn_app.
    replace (Z.to_nat n - List.length (_buffer self))%nat with 0%nat by lia.
    cbn. rewrite app_nil_r. reflexivity. }
  assert (L' : n + 2 <= len (_buffer self ++ data))
    by (unfold len in *; rewrite length_app; lia).
  split; [|split; [exact BL|split; [exact L'|cbn; rewrite ST; exact D]]].
  rewrite dataReceived_more. unfold budget_for.
  replace (2 * List.length (_buffer (more self data)) + 2)%nat
    with (S (2 * List.length (_buffer (more self data)) + 1)) by lia.
  apply (loop_raised decode to_int _ (more self data) Return _ UnicodeDecodeError).
  - cbn. intros E. rewrite E in L'. unfold len in L'. cbn in L'. lia.
  - unfold body. cbn [more set_buffer _buffer _bulk_length]. rewrite BL.
    replace (len (_buffer self ++ data) <? n + 2) with false
      by (symmetry; apply Z.ltb_ge; lia).
    rewrite ST, D. reflexivity.
  - reflexivity.
Qed.

Lemma undecodable_bulk_stays_witness :
  let self := mkRedisBase [x61; xff; x0d; x0a] (Some 2) false [] [0%nat] in
  (_bulk_length self = Some 2 /\ 0 <= 2 /\ 2 + 2 <= len (_buffer self) /\
   ascii_decode (slice_to (_buffer self) 2) = None) /\
  feed self (b "+OK" ++ SYM_CRLF) =
    mkResult (Raised UnicodeDecodeError) (more self (b "+OK" ++ SYM_CRLF)) [].
Proof.
  intros self.
  assert (H1 : _bulk_length self = Some 2) by reflexivity.
  assert (H2 : 0 <= 2) by lia.
  assert (H3 : 2 + 2 <= len (_buffer self)) by (cbn; lia).
  assert (H4 : ascii_decode (slice_to (_buffer self) 2) = None) by reflexivity.
  split; [exact (conj H1 (conj H2 (conj H3 H4)))|].
  exact (proj1 (undecodable_bulk_stays ascii_decode decimal_int self 2
                  (b "+OK" ++ SYM_CRLF) H1 H2 H3 H4)).
Defined.

(** ** Lines of no use *)

Lemma prepend_nothing r : prepend [] r = r.
Proof. destruct r; reflexivity. Qed.

Lemma dispatch_unknown to_int self reply_type reply_data :
  ~ In reply_type (b "-:+$*") ->
  dispatch to_int self reply_type reply_data = (Continue, ok self).
Proof.
  intros N. unfold dispatch.
  assert (F : forall c, In c (b "-:+$*") -> Byte.eqb reply_type c = false).
  { intros c I. apply Bool.not_true_is_false. intros E.
    apply Byte.byte_dec_bl in E. subst c. contradiction. }
  rewrite !F by (cbn; tauto). reflexivity.
Qed.

(** With nothing buffered and no bulk data awaited, an empty line and a line
    whose first byte is none of [-], [:], [+], [$] and [*] are taken off and
    dropped: the call goes on as if they had not been sent. *)
Theorem useless_lines_dropped decode to_int self data :
  _buffer self = [] ->
  _bulk_length self = None ->
  dataReceived decode to_int self (SYM_CRLF ++ data) =
    dataReceived decode to_int self data /\
  forall reply_type text reply_data,
    ~ In reply_type (b "-:+$*") ->
    split_crlf (reply_type :: text) = None ->
    decode text = Some reply_data ->
    dataReceived decode to_int self ((reply_type :: text) ++ SYM_CRLF ++ data) =
      dataReceived decode to_int self data.
Proof.
  intros B BL.
  assert (next : forall line,
             body decode to_int (more self (line ++ SYM_CRLF ++ data)) =
               (Continue, ok (set_buffer self data)) ->
             dataReceived decode to_int self (line ++ SYM_CRLF ++ data) =
               dataReceived decode to_int self data).
  { intros line E.
    rewrite (dataReceived_passes decode to_int self _ [] (set_buffer self data)).
    - rewrite prepend_nothing, !dataReceived_more. unfold more. cbn.
      rewrite B, app_nil_r. reflexivity.
    - apply (passes_one decode to_int _ (ok (set_buffer self data)));
        [|exact E|reflexivity].
      unfold more. cbn. rewrite B. cbn. destruct line; discriminate. }
  split.
  - apply (next []). unfold body, more. cbn [set_buffer _buffer _bulk_length].
    rewrite BL, B. reflexivity.
  - intros reply_type text reply_data N L D. apply next.
    rewrite (line_pass decode to_int
               (more self ((reply_type :: text) ++ SYM_CRLF ++ data))
               reply_type text data reply_data BL).
    + rewrite dispatch_unknown by exact N. reflexivity.
    + unfold more. cbn. rewrite B. reflexivity.
    + exact L.
    + exact D.
Qed.

Lemma useless_lines_dropped_witness :
  let self := awaiting [0%nat] in
  let data := b "+OK" ++ SYM_CRLF in
  (_buffer self = [] /\ _bulk_length self = None /\
   ~ In "?"%byte (b "-:+$*") /\
   split_crlf ("?"%byte :: b "x") = None /\
   ascii_decode (b "x") = Some "x"%string) /\
  feed self (SYM_CRLF ++ data) = feed self data /\
  feed self (("?"%byte :: b "x") ++ SYM_CRLF ++ data) = feed self data /\
  feed self data = mkResult Normal (awaiting []) [(0%nat, callback (VText "OK"))].
Proof.
  intros self data.
  assert (H1 : _buffer self = []) by reflexivity.
  assert (H2 : _bulk_length self = None) by reflexivity.
  assert (H3 : ~ In "?"%byte (b "-:+$*"))
    by (cbn; intros [H|[H|[H|[H|[H|[]]]]]]; discriminate H).
  assert (H4 : split_crlf ("?"%byte :: b "x") = None) by reflexivity.
  assert (H5 : ascii_decode (b "x") = Some "x"%string) by reflexivity.
  destruct (useless_lines_dropped ascii_decode decimal_int self data H1 H2)
    as [E1 E2].
  split; [exact (conj H1 (conj H2 (conj H3 (conj H4 H5))))|].
  split; [exact E1|]. split; [exact (E2 _ _ _ H3 H4 H5)|reflexivity].
Defined.

(** ** The size of the chunks *)

Section ChunkSizes.

Variable encode_text : string -> option bytes.

Lemma pack_loop_small args :
  forall buff words,
    encode_all encode_text args = Some words ->
    len buff + len (flat_map bulk_of words) <= 6000 ->
    pack_loop encode_text args buff [] = Some [buff ++ flat_map bulk_of words].
Proof.
  induction args as [|a args IH]; intros buff words E L; cbn [encode_all] in E.
  - inversion E; subst words. cbn. rewrite app_nil_r. reflexivity.
  - cbn [pack_loop]. destruct (encode encode_text a) as [arg|]; [|discriminate].
    destruct (encode_all encode_text args) as [words'|] eqn:E'; [|discriminate].
    inversion E; subst words. clear E. cbn [flat_map] in *.
    assert (L1 : len buff + len (bulk_of arg) + len (flat_map bulk_of words') <= 6000)
      by (unfold len in *; rewrite length_app in L; lia).
    assert (L2 : len arg <= len (bulk_of arg))
      by (unfold len at 1 2; apply Nat2Z.inj_le; unfold bulk_of;
          rewrite !length_app; generalize (b (str (len arg))); intros; lia).
    assert (P0 : 0 <= len arg) by (unfold len; lia).
    assert (P1 : 0 <= len buff) by (unfold len; lia).
    assert (P2 : 0 <= len (flat_map bulk_of words')) by (unfold len; lia).
    replace (6000 <? len buff) with false by (symmetry; apply Z.ltb_ge; lia).
    replace (6000 <? len arg) with false by (symmetry; apply Z.ltb_ge; lia).
    cbn [orb].
    change (buff ++ SYM_DOLLAR ++ b (str (len arg)) ++ SYM_CRLF ++ arg ++ SYM_CRLF)
      with (buff ++ bulk_of arg).
    rewrite (IH (buff ++ bulk_of arg) words' eq_refl).
    + rewrite <- app_assoc. reflexivity.
    + unfold len in *. rewrite length_app. lia.
Qed.

Lemma pack_loop_keeps args :
  forall buff output chunks,
    pack_loop encode_text args buff output = Some chunks ->
    forall chunk, In chunk output -> In chunk chunks.
Proof.
  induction args as [|a args IH]; intros buff output chunks P chunk I;
    cbn [pack_loop] in P.
  - inversion P. apply in_or_app. left. exact I.
  - destruct (encode encode_text a) as [arg|]; [|discriminate].
    destruct ((6000 <? len buff) || (6000 <? len arg)).
    + apply (IH _ _ _ P). apply in_or_app. left. exact I.
    + apply (IH _ _ _ P). exact I.
Qed.

Lemma pack_loop_large args :
  forall buff output chunks a arg,
    pack_loop encode_text args buff output = Some chunks ->
    In a args ->
    encode encode_text a = Some arg ->
    6000 < len arg ->
    In arg chunks.
Proof.
  induction args as [|x args IH]; intros buff output chunks a arg P I E L;
    [contradiction|].
  cbn [pack_loop] in P. destruct I as [->|I].
  - rewrite E in P.
    replace (6000 <? len arg) with true in P by (symmetry; apply Z.ltb_lt; exact L).
    rewrite Bool.orb_true_r in P.
    apply (pack_loop_keeps _ _ _ _ P). apply in_or_app. right. cbn. auto.
  - destruct (encode encode_text x) as [y|]; [|discriminate].
    destruct ((6000 <? len buff) || (6000 <? len y)); apply (IH _ _ _ a arg P I E L).
Qed.

End ChunkSizes.

(** A request whose whole encoding is at most 6000 bytes is written in one
    piece: [_pack] returns the single chunk of the encoding. *)
Theorem small_request_one_chunk encode_text command args words :
  encode_all encode_text (pack_args command args) = Some words ->
  len (canonical_encoding words) <= 6000 ->
  _pack encode_text command args = Some [canonical_encoding words].
Proof.
  intros E L. unfold _pack.
  rewrite (pack_loop_small encode_text _ _ words E).
  - unfold canonical_encoding, len. rewrite (encode_all_length _ _ _ E).
    rewrite <- !app_assoc. reflexivity.
  - unfold canonical_encoding, len in *. rewrite (encode_all_length _ _ _ E) in L.
    rewrite !length_app in *. lia.
Qed.

Lemma small_request_one_chunk_witness :
  let words := [b "GET"; b "key"] in
  (encode_all ascii_encode (pack_args "GET" [Unicode "key"]) = Some words /\
   len (canonical_encoding words) <= 6000) /\
  _pack ascii_encode "GET" [Unicode "key"] =
    Some [b "*2" ++ SYM_CRLF ++ b "$3" ++ SYM_CRLF ++ b "GET" ++ SYM_CRLF ++
          b "$3" ++ SYM_CRLF ++ b "key" ++ SYM_CRLF].
Proof.
  intros words.
  assert (E : encode_all ascii_encode (pack_args "GET" [Unicode "key"]) = Some words)
    by reflexivity.
  assert (L : len (canonical_encoding words) <= 6000) by (vm_compute; discriminate).
  split; [exact (conj E L)|].
  exact (small_request_one_chunk ascii_encode "GET" [Unicode "key"] words E L).
Defined.

(** An argument whose encoding is longer than 6000 bytes is not copied into
    a joined buffer: its bytes are one of the chunks [_pack] returns. *)
Theorem large_argument_own_chunk encode_text command args chunks a arg :
  _pack encode_text command args = Some chunks ->
  In a (pack_args command args) ->
  encode encode_text a = Some arg ->
  6000 < len arg ->
  In arg chunks.
Proof.
  intros P I E L. unfold _pack in P.
  exact (pack_loop_large encode_text _ _ _ _ a arg P I E L).
Qed.

Lemma large_argument_own_chunk_witness :
  let large := repeat "a"%byte (Z.to_nat 6001) in
  exists chunks,
    (_pack ascii_encode "SET" [Unicode "k"; Binary large] = Some chunks /\
     In (Binary large) (pack_args "SET" [Unicode "k"; Binary large]) /\
     encode ascii_encode (Binary large) = Some large /\
     6000 < len large) /\
    In large chunks.
Proof.
  intros large.
  destruct (_pack ascii_encode "SET" [Unicode "k"; Binary large]) as [chunks|] eqn:P;
    [|vm_compute in P; discriminate].
  exists chunks.
  assert (I : In (Binary large) (pack_args "SET" [Unicode "k"; Binary large]))
    by (cbn; auto).
  assert (E : encode ascii_encode (Binary large) = Some large) by reflexivity.
  assert (L : 6000 < len large) by (vm_compute; reflexivity).
  split; [exact (conj eq_refl (conj I (conj E L)))|].
  exact (large_argument_own_chunk ascii_encode "SET" [Unicode "k"; Binary large]
           chunks (Binary large) large P I E L).
Defined.

(** ** Error lines *)

Lemma substring_whole s :
  forall n, (String.length s <= n)%nat -> substring 0 n s = s.
Proof.
  induction s as [|c s IH]; intros n L.
  - destruct n; reflexivity.
  - destruct n; cbn in L; [lia|]. cbn. rewrite IH by lia. reflexivity.
Qed.

Lemma substring_nothing s : substring 0 0 s = EmptyString.
Proof. destruct s; reflexivity. Qed.

(** The error of an error line is told by its prefix: [ERR ], [NOSCRIPT ]
    and [NOTBUSY ] are cut off and give [ResponseError], [NoScript] and
    [NotBusy] with the rest of the line as their message. *)
Theorem classify_prefixes (message : string) :
  classify ("ERR " ++ message) = ResponseError message /\
  classify ("NOSCRIPT " ++ message) = NoScript message /\
  classify ("NOTBUSY " ++ message) = NotBusy message.
Proof.
  unfold classify, text_to, text_from. repeat apply conj.
  - cbn. rewrite ?substring_nothing. cbn. rewrite substring_whole by lia. reflexivity.
  - cbn. rewrite ?substring_nothing. cbn. rewrite substring_whole by lia. reflexivity.
  - cbn. rewrite ?substring_nothing. cbn. rewrite substring_whole by lia. reflexivity.
Qed.

(** ** The hiredis variant *)

(** [HiRedisBase.dataReceived] hands the results of the reader to the
    requests oldest first, one each; when the reader has more results than
    requests are waiting, the call raises [IndexError] after the last request
    was served, where [RedisBase] drops the reply. *)
Theorem hiredis_replies_in_order is_response_error self replies :
  HiRedisBase_dataReceived is_response_error self replies =
  mkResult
    (if (List.length replies <=? List.length (_request_queue self))%nat
     then Normal else Raised IndexError)
    (set_queue self (skipn (List.length replies) (_request_queue self)))
    (combine (_request_queue self) (map (hiredis_firing is_response_error) replies)).
Proof.
  revert self. induction replies as [|res later IH]; intros self.
  - cbn. unfold ok. f_equal.
    + destruct self; reflexivity.
    + destruct (_request_queue self); reflexivity.
  - cbn [HiRedisBase_dataReceived]. destruct (_request_queue self) as [|d waiting] eqn:Q.
    + cbn. unfold raise. f_equal. destruct self; cbn in *; subst; reflexivity.
    + rewrite IH. unfold prepend. cbn. reflexivity.
Qed.

(** ** The decoder after the connection is lost *)

(** [connectionLost] touches the queue and the flag only: what was buffered,
    the awaited bulk length and the open frames stay as they were; a second
    call finds nothing to fail. *)
Theorem connection_lost_keeps_decoder self reason reason' :
  final (connectionLost self reason) =
    mkRedisBase (_buffer self) (_bulk_length self) true (_multi_bulk_stack self) [] /\
  connectionLost (final (connectionLost self reason)) reason' =
    ok (final (connectionLost self reason)).
Proof.
  assert (F : final (connectionLost self reason) =
              mkRedisBase (_buffer self) (_bulk_length self) true
                          (_multi_bulk_stack self) []).
  { unfold connectionLost, failRequests.
    destruct (failRequests_on_spec (_request_queue (set_disconnected self true))
                                   (set_disconnected self true) reason)
      as (_ & _ & S).
    cbv zeta in S. rewrite S. cbn.
    destruct self as [bf bl dc st q]. cbn. destruct q; reflexivity. }
  split; [exact F|]. rewrite F. reflexivity.
Qed.

(** ** More on the loop and the command name *)

(** The receive loop comes to an end on every input: a call returns or
    raises within twice the buffered bytes plus two passes. *)
Theorem receive_loop_ends decode to_int self data :
  out (dataReceived decode to_int self data) <> Unfinished.
Proof.
  rewrite dataReceived_more. apply loop_finishes. apply budget_for_enough.
Qed.

Lemma split_space_some s : split_space s <> [].
Proof.
  destruct s as [|c s]; cbn; [discriminate|].
  destruct (Ascii.eqb c " "); [discriminate|].
  destruct (split_space s); discriminate.
Qed.

Lemma split_space_plain s : has_space s = false -> split_space s = [s].
Proof.
  induction s as [|c s IH]; cbn; [reflexivity|].
  destruct (Ascii.eqb c " "); [discriminate|].
  cbn. intros H. rewrite (IH H). reflexivity.
Qed.

Lemma split_space_joined s : String.concat " " (split_space s) = s.
Proof.
  induction s as [|c s IH]; [reflexivity|].
  cbn [split_space]. destruct (Ascii.eqb c " ") eqn:E.
  - apply Ascii.eqb_eq in E. subst c.
    pose proof (split_space_some s) as N.
    destruct (split_space s) as [|w ws]; [contradiction|].
    cbn [String.concat] in *. rewrite IH. reflexivity.
  - destruct (split_space s) as [|w ws] eqn:S; [destruct (split_space_some s S)|].
    destruct ws as [|w' ws'].
    + cbn in *. rewrite IH. reflexivity.
    + change (String.concat " " (String c w :: w' :: ws'))
        with (String c (w ++ " " ++ String.concat " " (w' :: ws')))%string.
      change (String.concat " " (w :: w' :: ws'))
        with (w ++ " " ++ String.concat " " (w' :: ws'))%string in IH.
      rewrite IH. reflexivity.
Qed.

Lemma split_space_spaceless s : Forall (fun w => has_space w = false) (split_space s).
Proof.
  induction s as [|c s IH]; cbn [split_space]; [repeat constructor|].
  destruct (Ascii.eqb c " ") eqn:E.
  - constructor; [reflexivity|exact IH].
  - destruct (split_space s) as [|w ws]; [repeat constructor; cbn; rewrite E; reflexivity|].
    inversion IH; subst. constructor; [|assumption].
    cbn. rewrite E. assumption.
Qed.

(** The words of a request are the pieces of the command name between its
    spaces, as tokens, followed by the arguments: the pieces hold no space
    and, joined by single spaces, give the name back, so two spaces in a
    row give an empty token. *)
Theorem command_name_tokens command args :
  pack_args command args = map Token (split_space command) ++ args /\
  Forall (fun w => has_space w = false) (split_space command) /\
  String.concat " " (split_space command) = command.
Proof.
  repeat apply conj.
  - unfold pack_args. destruct (has_space command) eqn:H; [reflexivity|].
    rewrite (split_space_plain command H). reflexivity.
  - apply split_space_spaceless.
  - apply split_space_joined.
Qed.

(** ** Any number of chunks *)

Section Cuts.

Variable decode : bytes -> option string.
Variable to_int : string -> option Z.

(** A pass that goes round again on a buffer is, on a front part of that
    buffer, the same pass or a wait for more data. *)
Lemma body_cut self behind r :
  steady self ->
  body decode to_int (more self behind) = (Continue, r) ->
  stands decode to_int self \/
  exists r0,
    body decode to_int self = (Continue, r0) /\
    r = with_buffer (_buffer (final r0) ++ behind) r0.
Proof.
  intros N E. destruct (body decode to_int self) as [ctl r0] eqn:E0.
  destruct ctl.
  - right. exists r0. split; [reflexivity|].
    rewrite (body_more decode to_int self r0 behind N E0) in E.
    inversion E. reflexivity.
  - left. right.
    assert (R : r0 = ok self); [|rewrite R in E0; exact E0].
    revert E0 E. unfold steady in N. unfold body, more.
    cbn [set_buffer _buffer _bulk_length].
    destruct (_bulk_length self) as [n|].
    + destruct (len (_buffer self) <? n + 2) eqn:L.
      * intros E0 _. inversion E0. reflexivity.
      * apply Z.ltb_ge in L. unfold len in L.
        replace (len (_buffer self ++ behind) <? n + 2) with false
          by (symmetry; apply Z.ltb_ge; unfold len; rewrite length_app; lia).
        replace (slice_to (_buffer self ++ behind) n) with (slice_to (_buffer self) n).
        2:{ unfold slice_to.
            replace (0 <=? n) with true by (symmetry; apply Z.leb_le; lia).
            rewrite firstn_app.
            replace (Z.to_nat n - List.length (_buffer self))%nat with 0%nat by lia.
            cbn. rewrite app_nil_r. reflexivity. }
        destruct (decode (slice_to (_buffer self) n)); discriminate.
    + destruct (split_crlf (_buffer self)) as [[line rest]|] eqn:S.
      * rewrite (split_crlf_more _ _ _ behind S).
        destruct line as [|reply_type tail]; [discriminate|].
        destruct (decode tail) as [reply_data|]; [|discriminate].
        intros E0 E.
        pose proof (dispatch_with_buffer to_int (set_buffer self rest)
                      (rest ++ behind) reply_type reply_data) as W.
        rewrite E0 in W.
        change (dispatch to_int (set_buffer (set_buffer self rest) (rest ++ behind))
                         reply_type reply_data = (Continue, r)) in E.
        rewrite W in E. discriminate.
      * intros E0 _. inversion E0. reflexivity.
Qed.

Lemma more_more self first second :
  more self (first ++ second) = more (more self first) second.
Proof. unfold more. cbn. rewrite app_assoc. reflexivity. Qed.

Lemma more_nothing self : more self [] = self.
Proof. unfold more. rewrite app_nil_r. destruct self; reflexivity. Qed.

(** A run of steady passes that uses up a buffer, seen from a front part of
    the buffer: steady passes up to a stand, and the rest of the run once
    the part behind is added. *)
Lemma cut_run whole evs self' :
  steady_passes decode to_int whole evs self' ->
  _buffer self' = [] ->
  forall front behind,
    whole = more front behind ->
    exists evs1 mid evs2,
      steady_passes decode to_int front evs1 mid /\
      stands decode to_int mid /\
      steady_passes decode to_int (more mid behind) evs2 self' /\
      evs = evs1 ++ evs2.
Proof.
  induction 1 as [whole|whole r evs self' N B E O P IH]; intros BE front behind ->.
  - exists [], front, []. repeat split; try apply steady_none.
    left. cbn in BE. apply app_eq_nil in BE. tauto.
  - assert (NF : steady front) by exact N.
    destruct (body_cut front behind r NF E) as [ST|(r0 & E0 & ->)].
    + exists [], front, (fired r ++ evs).
      split; [apply steady_none|]. split; [exact ST|]. split; [|reflexivity].
      exact (steady_next decode to_int _ r evs self' N B E O P).
    + destruct (_buffer front) eqn:BF.
      * exists [], front, (fired r0 ++ evs).
        split; [apply steady_none|]. split; [left; exact BF|]. split; [|reflexivity].
        exact (steady_next decode to_int _ _ evs self' N B E O P).
      * destruct (IH BE (final r0) behind eq_refl) as (evs1 & mid & evs2 & S1 & ST & S2 & ->).
        exists (fired r0 ++ evs1), mid, evs2.
        split; [|split; [exact ST|split; [exact S2|]]].
        -- apply (steady_next decode to_int front r0 evs1 mid NF);
             [rewrite BF; discriminate|exact E0|exact O|exact S1].
        -- cbn. rewrite app_assoc. reflexivity.
Qed.

Lemma stands_still self evs self' :
  stands decode to_int self ->
  steady_passes decode to_int self evs self' ->
  evs = [] /\ self' = self.
Proof.
  intros ST P. destruct P as [self|self r evs self' N B E O P]; [auto|].
  destruct ST as [BE|R]; [contradiction|]. rewrite R in E. discriminate.
Qed.

(** The call on a chunk after which the loop stands. *)
Lemma call_to_stand self data evs self' :
  steady_passes decode to_int (more self data) evs self' ->
  stands decode to_int self' ->
  dataReceived decode to_int self data = mkResult Normal self' evs.
Proof.
  intros SP ST. rewrite dataReceived_more.
  rewrite (loop_passes_for decode to_int _ _ _
             (steady_passes_passes decode to_int _ _ _ SP)).
  rewrite (loop_stands decode to_int self' ST).
  unfold prepend. cbn. rewrite app_nil_r. reflexivity.
Qed.

Lemma chunks_to_stand chunks :
  forall self evs self',
    stands decode to_int self ->
    steady_passes decode to_int (more self (List.concat chunks)) evs self' ->
    _buffer self' = [] ->
    receive decode to_int self chunks = mkResult Normal self' evs.
Proof.
  induction chunks as [|data later IH]; intros self evs self' ST P BE.
  - cbn [List.concat] in P. rewrite more_nothing in P.
    destruct (stands_still self evs self' ST P) as [-> ->]. reflexivity.
  - cbn [List.concat] in P. rewrite more_more in P.
    destruct (cut_run _ _ _ P BE (more self data) (List.concat later) eq_refl)
      as (evs1 & mid & evs2 & S1 & STm & S2 & ->).
    cbn [receive]. rewrite (call_to_stand self data evs1 mid S1 STm).
    cbn [out final fired]. rewrite (IH mid evs2 self' STm S2 BE). reflexivity.
Qed.

End Cuts.

(** However a stream is cut into chunks, if the loop decodes the whole of it
    in steady passes that go round again until the buffer is used up, then
    feeding the chunks one by one, starting from a protocol that stands,
    fires the same events and ends in the same protocol as the run on the
    whole. *)
Theorem any_chunking decode to_int self chunks evs self' :
  stands decode to_int self ->
  steady_passes decode to_int (more self (List.concat chunks)) evs self' ->
  _buffer self' = [] ->
  receive decode to_int self chunks = mkResult Normal self' evs /\
  dataReceived decode to_int self (List.concat chunks) = mkResult Normal self' evs.
Proof.
  intros ST P BE. split.
  - exact (chunks_to_stand decode to_int chunks self evs self' ST P BE).
  - apply (call_to_stand decode to_int self _ evs self' P). left. exact BE.
Qed.

(** Whole replies in any chunks: as many well-formed replies as requests
    waiting for them, cut into chunks at any bytes, complete those requests
    oldest first, each with the value of its reply. *)
Theorem replies_in_any_chunks decode to_int self chunks rs vs ds waiting :
  _buffer self = [] ->
  _bulk_length self = None ->
  _multi_bulk_stack self = [] ->
  _request_queue self = ds ++ waiting ->
  List.length ds = List.length rs ->
  all_of (map (value_of decode) rs) = Some vs ->
  Forall (well_formed decode to_int) rs ->
  List.concat chunks = flat_map wire rs ->
  receive decode to_int self chunks =
  mkResult Normal (set_queue self waiting) (combine ds (map callback vs)).
Proof.
  intros B BL S Q L V W C.
  assert (B' : _buffer (more self (List.concat chunks)) = flat_map wire rs)
    by (cbn; rewrite B, C; reflexivity).
  pose proof (pipeline_passes decode to_int rs (more self (List.concat chunks))
                vs ds waiting B' BL S V W L Q) as P.
  rewrite (chunks_to_stand decode to_int chunks self _ _ (or_introl B) P eq_refl).
  f_equal. destruct self; cbn in *; subst; reflexivity.
Qed.

Lemma any_chunking_witness :
  let self := awaiting [0%nat; 1%nat] in
  let chunks := [b "+O"; b "K" ++ SYM_CRLF ++ b ":"; b "1" ++ SYM_CRLF] in
  let evs := [(0%nat, callback (VText "OK")); (1%nat, callback (VInt 1))] in
  (stands ascii_decode decimal_int self /\
   steady_passes ascii_decode decimal_int (more self (List.concat chunks)) evs
                 (awaiting []) /\
   _buffer (awaiting []) = []) /\
  receive ascii_decode decimal_int self chunks = mkResult Normal (awaiting []) evs.
Proof.
  intros self chunks evs.
  assert (ST : stands ascii_decode decimal_int self) by (left; reflexivity).
  assert (P : steady_passes ascii_decode decimal_int
                            (more self (List.concat chunks)) evs (awaiting [])).
  { apply (steady_next ascii_decode decimal_int (more self (List.concat chunks))
             (mkResult Normal (mkRedisBase (b ":1" ++ SYM_CRLF) None false [] [1%nat])
                       [(0%nat, callback (VText "OK"))])
             [(1%nat, callback (VInt 1))] (awaiting []));
      [exact I|discriminate|reflexivity|reflexivity|].
    apply (steady_next ascii_decode decimal_int
             (mkRedisBase (b ":1" ++ SYM_CRLF) None false [] [1%nat])
             (mkResult Normal (awaiting []) [(1%nat, callback (VInt 1))])
             [] (awaiting []));
      [exact I|discriminate|reflexivity|reflexivity|].
    apply steady_none. }
  assert (BE : _buffer (awaiting []) = []) by reflexivity.
  split; [exact (conj ST (conj P BE))|].
  exact (proj1 (any_chunking ascii_decode decimal_int self chunks evs (awaiting [])
                  ST P BE)).
Defined.

Lemma replies_in_any_chunks_witness :
  let self := awaiting [0%nat; 1%nat; 2%nat] in
  let rs := [RBulk (b "hello"); RArray [RInteger 1; RNull]] in
  let vs := [VText "hello"; VList [VInt 1; VNone]] in
  let chunks := [b "$5" ++ [x0d]; [x0a] ++ b "hel";
                 b "lo" ++ SYM_CRLF ++ b "*2" ++ SYM_CRLF ++ b ":";
                 b "1" ++ SYM_CRLF ++ b "$-1" ++ SYM_CRLF] in
  (_buffer self = [] /\ _bulk_length self = None /\ _multi_bulk_stack self = [] /\
   _request_queue self = [0%nat; 1%nat] ++ [2%nat] /\
   List.length [0%nat; 1%nat] = List.length rs /\
   all_of (map (value_of ascii_decode) rs) = Some vs /\
   Forall (well_formed ascii_decode decimal_int) rs /\
   List.concat chunks = flat_map wire rs) /\
  receive ascii_decode decimal_int self chunks =
    mkResult Normal (awaiting [2%nat])
             [(0%nat, callback (VText "hello"));
              (1%nat, callback (VList [VInt 1; VNone]))].
Proof.
  intros self rs vs chunks.
  assert (H1 : _buffer self = []) by reflexivity.
  assert (H2 : _bulk_length self = None) by reflexivity.
  assert (H3 : _multi_bulk_stack self = []) by reflexivity.
  assert (H4 : _request_queue self = [0%nat; 1%nat] ++ [2%nat]) by reflexivity.
  assert (H5 : List.length [0%nat; 1%nat] = List.length rs) by reflexivity.
  assert (H6 : all_of (map (value_of ascii_decode) rs) = Some vs) by reflexivity.
  assert (H7 : Forall (well_formed ascii_decode decimal_int) rs)
    by (repeat constructor).
  assert (H8 : List.concat chunks = flat_map wire rs) by reflexivity.
  split; [exact (conj H1 (conj H2 (conj H3 (conj H4 (conj H5 (conj H6 (conj H7 H8)))))))|].
  exact (replies_in_any_chunks ascii_decode decimal_int self chunks rs vs
           [0%nat; 1%nat] [2%nat] H1 H2 H3 H4 H5 H6 H7 H8).
Defined.
